(** * TinyGraph: a shallow embedding of [sketch.js]

    The sketch keeps its whole scene in top-level mutable variables and
    mutates [Node] instances in place.  The embedding follows that shape:

    - JavaScript numbers are modelled by the reals [R] (exact arithmetic;
      rounding of IEEE doubles is not modelled), node ids by [Z];
    - every [Node] instance lives in an object store ([heap]); a reference
      is its address, and [===] on nodes is equality of addresses, so that
      the node array, the edge array and the selection variables alias the
      same objects exactly as in the source;
    - each handler is a function from the p5 environment of the call
      (pointer, canvas size, clock) and the current [State] to the next
      [State]; the one place that can throw ([restoreFromSnapshot] on a
      loaded document) returns a [completion] with the state reached. *)

From Stdlib Require Import Reals Lra ZArith List Bool.
From stdpp Require Import base option list strings pretty gmap.

Set Default Proof Using "Type".

(** ** Numbers and p5 helpers *)

Section Numbers.
Local Open Scope R_scope.

Definition MAX_ZOOM : R := 5.
Definition MIN_ZOOM : R := 0.2.
Definition HISTORY_LIMIT : nat := 50.

(** p5's [constrain(n, low, high)] is [max(min(n, high), low)]. *)
Definition constrain (n low high : R) : R := Rmax (Rmin n high) low.

(** p5's [dist(x1, y1, x2, y2)]. *)
Definition dist (x1 y1 x2 y2 : R) : R :=
  sqrt ((x2 - x1) * (x2 - x1) + (y2 - y1) * (y2 - y1)).

Definition Rltb (a b : R) : bool := if Rlt_dec a b then true else false.
Definition Rgtb (a b : R) : bool := if Rgt_dec a b then true else false.
End Numbers.

(** A reference to a [Node] instance: its address in the object store. *)
Definition ref : Type := nat.

(** [worldBounds]: the world rectangle the boundary force keeps nodes in. *)
Module Bounds.
Record t : Type := mk { left : R; right : R; top : R; bottom : R }.
End Bounds.

(** ** class Node *)

Module Node.
Local Open Scope R_scope.

#[projections(primitive)]
Record t : Type := mk {
  x : R; y : R; vx : R; vy : R; r : R; id : Z; label : string;
  tx : R; ty : R; speed : R; friction : R; labelVisible : bool }.

(** [constructor(x, y, id)]; [labelVisible] is read from the global
    toggle [isLabelsAlwaysVisible] at construction time. *)
Definition new (x0 y0 : R) (id0 : Z) (isLabelsAlwaysVisible : bool) : t :=
  {| x := x0; y := y0; vx := 0; vy := 0; r := 20; id := id0;
     label := "node " +:+ pretty id0;
     tx := x0; ty := y0; speed := 0.1; friction := 0.8;
     labelVisible := isLabelsAlwaysVisible |}.

Definition with_vel (vx' vy' : R) (n : t) : t :=
  {| x := x n; y := y n; vx := vx'; vy := vy'; r := r n; id := id n;
     label := label n; tx := tx n; ty := ty n; speed := speed n;
     friction := friction n; labelVisible := labelVisible n |}.

Definition with_pos (x' y' : R) (n : t) : t :=
  {| x := x'; y := y'; vx := vx n; vy := vy n; r := r n; id := id n;
     label := label n; tx := tx n; ty := ty n; speed := speed n;
     friction := friction n; labelVisible := labelVisible n |}.

Definition with_target (tx' ty' : R) (n : t) : t :=
  {| x := x n; y := y n; vx := vx n; vy := vy n; r := r n; id := id n;
     label := label n; tx := tx'; ty := ty'; speed := speed n;
     friction := friction n; labelVisible := labelVisible n |}.

Definition with_id (id' : Z) (n : t) : t :=
  {| x := x n; y := y n; vx := vx n; vy := vy n; r := r n; id := id';
     label := label n; tx := tx n; ty := ty n; speed := speed n;
     friction := friction n; labelVisible := labelVisible n |}.

Definition with_labelVisible (b : bool) (n : t) : t :=
  {| x := x n; y := y n; vx := vx n; vy := vy n; r := r n; id := id n;
     label := label n; tx := tx n; ty := ty n; speed := speed n;
     friction := friction n; labelVisible := b |}.

#[global] Instance inhabited : Inhabited t := populate (new 0 0 0 false).

(** [update()]: spring towards the target, friction, then move.  There is
    no clamp in this method. *)
Definition update (n : t) : t :=
  let dx := tx n - x n in
  let dy := ty n - y n in
  let vx1 := vx n + dx * speed n in
  let vy1 := vy n + dy * speed n in
  let vx2 := vx1 * friction n in
  let vy2 := vy1 * friction n in
  with_pos (x n + vx2) (y n + vy2) (with_vel vx2 vy2 n).

(** [moveTo(x, y)] *)
Definition moveTo (x' y' : R) (n : t) : t := with_target x' y' n.

(** One iteration of the loop of [applyRepulsion]: [acc] is [(fx, fy)],
    [me] is [this], [oref] the address of [other] and [o] the object it
    points to. *)
Definition repel (this : ref) (me : t) (acc : R * R) (oref : ref) (o : t)
  : R * R :=
  if decide (oref = this) then acc
  else
    let dx := x me - x o in
    let dy := y me - y o in
    let d := sqrt (dx * dx + dy * dy) in
    if Rltb d (r me * 2) && Rgtb d 0.1 then
      let overlap := r me * 2 - d in
      let force := overlap * 0.5 in
      (fst acc + dx / d * force, snd acc + dy / d * force)
    else acc.

(** The force [(fx, fy)] accumulated by the loop of [applyRepulsion] over
    [others], read through the store [h]. *)
Definition repulsion (h : list t) (others : list ref) (this : ref) : R * R :=
  fold_left (λ acc oref, repel this (h !!! this) acc oref (h !!! oref))
            others (0, 0).

(** The tail of [applyRepulsion]: the force is added to the velocity and
    the velocity is clamped to [-5, 5] right here. *)
Definition repulse (f : R * R) (n : t) : t :=
  with_vel (constrain (vx n + fst f) (-5) 5)
           (constrain (vy n + snd f) (-5) 5) n.

(** [applyRepulsion(others)] as a store update on [this]. *)
Definition applyRepulsion (others : list ref) (this : ref) (h : list t)
  : list t :=
  alter (repulse (repulsion h others this)) this h.

(** [applyBoundary()] against the global [worldBounds]. *)
Definition applyBoundary (wb : Bounds.t) (n : t) : t :=
  let push_strength := 0.1 in
  let vxa :=
    if Rltb (x n - r n) (Bounds.left wb)
    then vx n + (Bounds.left wb - x n + r n) * push_strength else vx n in
  let vya :=
    if Rltb (y n - r n) (Bounds.top wb)
    then vy n + (Bounds.top wb - y n + r n) * push_strength else vy n in
  let vxb :=
    if Rgtb (x n + r n) (Bounds.right wb)
    then vxa - (x n + r n - Bounds.right wb) * push_strength else vxa in
  let vyb :=
    if Rgtb (y n + r n) (Bounds.bottom wb)
    then vya - (y n + r n - Bounds.bottom wb) * push_strength else vya in
  with_vel vxb vyb n.

(** [isHovered()] against the pointer's world position. *)
Definition isHovered (canvasX canvasY : R) (n : t) : bool :=
  Rltb (dist (x n) (y n) canvasX canvasY) (r n).
End Node.

(** ** Persisted data, notifications and the global state *)

(** The text of a toast.  [MsgConnected a b] stands for the template
    string that shows the ids of the two nodes just connected. *)
Inductive Message : Type :=
  | MsgSelectFirst       (* Please select a starting node first. *)
  | MsgConnected (a b : Z)
  | MsgAlreadyConnected  (* These nodes are already connected. *)
  | MsgSaved             (* Graph saved as my-tiny-graph.json *)
  | MsgNothingToUndo     (* Nothing to undo. *)
  | MsgNothingToRedo     (* Nothing to redo. *)
  | MsgNotJson           (* Error: Please select a valid .json file. *)
  | MsgLoaded            (* Graph loaded successfully! *)
  | MsgParseError.       (* Error: Could not parse the JSON file. *)

Record Toast : Type := mkToast { message : Message; createdAt : R; duration : R }.

(** A node as [createSnapshot] copies it. *)
Record NodeData : Type := mkNodeData {
  d_x : R; d_y : R; d_id : Z; d_label : string;
  d_speed : R; d_friction : R; d_tx : R; d_ty : R }.

(** A snapshot: nodes by value, edges as pairs of node ids. *)
Record Snapshot : Type := mkSnapshot {
  snap_nodes : list NodeData; snap_edges : list (Z * Z) }.

#[projections(primitive)]
Record State : Type := mkState {
  heap : list Node.t;
  nodes : list ref;
  edges : list (ref * ref);
  toasts : list Toast;
  undoStack : list Snapshot;
  redoStack : list Snapshot;
  worldBounds : Bounds.t;
  selectedNode : option ref;
  hoveredNode : option ref;
  draggedNode : option ref;
  isConnectingNode : bool;
  isLabelsAlwaysVisible : bool;
  isAllowOverlap : bool;
  isBoundaryStatic : bool;
  isDrawPreview : bool;
  zoom : R;
  offsetX : R;
  offsetY : R;
  canvasX : R;
  canvasY : R }.

(** Assignment to one global variable. *)
Definition set_heap (v : list Node.t) (s : State) : State :=
  mkState v (nodes s) (edges s) (toasts s) (undoStack s) (redoStack s)
    (worldBounds s) (selectedNode s) (hoveredNode s) (draggedNode s)
    (isConnectingNode s) (isLabelsAlwaysVisible s) (isAllowOverlap s)
    (isBoundaryStatic s) (isDrawPreview s) (zoom s) (offsetX s) (offsetY s)
    (canvasX s) (canvasY s).
Definition set_nodes (v : list ref) (s : State) : State :=
  mkState (heap s) v (edges s) (toasts s) (undoStack s) (redoStack s)
    (worldBounds s) (selectedNode s) (hoveredNode s) (draggedNode s)
    (isConnectingNode s) (isLabelsAlwaysVisible s) (isAllowOverlap s)
    (isBoundaryStatic s) (isDrawPreview s) (zoom s) (offsetX s) (offsetY s)
    (canvasX s) (canvasY s).
Definition set_edges (v : list (ref * ref)) (s : State) : State :=
  mkState (heap s) (nodes s) v (toasts s) (undoStack s) (redoStack s)
    (worldBounds s) (selectedNode s) (hoveredNode s) (draggedNode s)
    (isConnectingNode s) (isLabelsAlwaysVisible s) (isAllowOverlap s)
    (isBoundaryStatic s) (isDrawPreview s) (zoom s) (offsetX s) (offsetY s)
    (canvasX s) (canvasY s).
Definition set_toasts (v : list Toast) (s : State) : State :=
  mkState (heap s) (nodes s) (edges s) v (undoStack s) (redoStack s)
    (worldBounds s) (selectedNode s) (hoveredNode s) (draggedNode s)
    (isConnectingNode s) (isLabelsAlwaysVisible s) (isAllowOverlap s)
    (isBoundaryStatic s) (isDrawPreview s) (zoom s) (offsetX s) (offsetY s)
    (canvasX s) (canvasY s).
Definition set_undoStack (v : list Snapshot) (s : State) : State :=
  mkState (heap s) (nodes s) (edges s) (toasts s) v (redoStack s)
    (worldBounds s) (selectedNode s) (hoveredNode s) (draggedNode s)
    (isConnectingNode s) (isLabelsAlwaysVisible s) (isAllowOverlap s)
    (isBoundaryStatic s) (isDrawPreview s) (zoom s) (offsetX s) (offsetY s)
    (canvasX s) (canvasY s).
Definition set_redoStack (v : list Snapshot) (s : State) : State :=
  mkState (heap s) (nodes s) (edges s) (toasts s) (undoStack s) v
    (worldBounds s) (selectedNode s) (hoveredNode s) (draggedNode s)
    (isConnectingNode s) (isLabelsAlwaysVisible s) (isAllowOverlap s)
    (isBoundaryStatic s) (isDrawPreview s) (zoom s) (offsetX s) (offsetY s)
    (canvasX s) (canvasY s).
Definition set_worldBounds (v : Bounds.t) (s : State) : State :=
  mkState (heap s) (nodes s) (edges s) (toasts s) (undoStack s) (redoStack
    s) v (selectedNode s) (hoveredNode s) (draggedNode s) (isConnectingNode
    s) (isLabelsAlwaysVisible s) (isAllowOverlap s) (isBoundaryStatic s)
    (isDrawPreview s) (zoom s) (offsetX s) (offsetY s) (canvasX s) (canvasY
    s).
Definition set_selectedNode (v : option ref) (s : State) : State :=
  mkState (heap s) (nodes s) (edges s) (toasts s) (undoStack s) (redoStack
    s) (worldBounds s) v (hoveredNode s) (draggedNode s) (isConnectingNode
    s) (isLabelsAlwaysVisible s) (isAllowOverlap s) (isBoundaryStatic s)
    (isDrawPreview s) (zoom s) (offsetX s) (offsetY s) (canvasX s) (canvasY
    s).
Definition set_hoveredNode (v : option ref) (s : State) : State :=
  mkState (heap s) (nodes s) (edges s) (toasts s) (undoStack s) (redoStack
    s) (worldBounds s) (selectedNode s) v (draggedNode s) (isConnectingNode
    s) (isLabelsAlwaysVisible s) (isAllowOverlap s) (isBoundaryStatic s)
    (isDrawPreview s) (zoom s) (offsetX s) (offsetY s) (canvasX s) (canvasY
    s).
Definition set_draggedNode (v : option ref) (s : State) : State :=
  mkState (heap s) (nodes s) (edges s) (toasts s) (undoStack s) (redoStack
    s) (worldBounds s) (selectedNode s) (hoveredNode s) v (isConnectingNode
    s) (isLabelsAlwaysVisible s) (isAllowOverlap s) (isBoundaryStatic s)
    (isDrawPreview s) (zoom s) (offsetX s) (offsetY s) (canvasX s) (canvasY
    s).
Definition set_isConnectingNode (v : bool) (s : State) : State :=
  mkState (heap s) (nodes s) (edges s) (toasts s) (undoStack s) (redoStack
    s) (worldBounds s) (selectedNode s) (hoveredNode s) (draggedNode s) v
    (isLabelsAlwaysVisible s) (isAllowOverlap s) (isBoundaryStatic s)
    (isDrawPreview s) (zoom s) (offsetX s) (offsetY s) (canvasX s) (canvasY
    s).
Definition set_isLabelsAlwaysVisible (v : bool) (s : State) : State :=
  mkState (heap s) (nodes s) (edges s) (toasts s) (undoStack s) (redoStack
    s) (worldBounds s) (selectedNode s) (hoveredNode s) (draggedNode s)
    (isConnectingNode s) v (isAllowOverlap s) (isBoundaryStatic s)
    (isDrawPreview s) (zoom s) (offsetX s) (offsetY s) (canvasX s) (canvasY
    s).
Definition set_isAllowOverlap (v : bool) (s : State) : State :=
  mkState (heap s) (nodes s) (edges s) (toasts s) (undoStack s) (redoStack
    s) (worldBounds s) (selectedNode s) (hoveredNode s) (draggedNode s)
    (isConnectingNode s) (isLabelsAlwaysVisible s) v (isBoundaryStatic s)
    (isDrawPreview s) (zoom s) (offsetX s) (offsetY s) (canvasX s) (canvasY
    s).
Definition set_isBoundaryStatic (v : bool) (s : State) : State :=
  mkState (heap s) (nodes s) (edges s) (toasts s) (undoStack s) (redoStack
    s) (worldBounds s) (selectedNode s) (hoveredNode s) (draggedNode s)
    (isConnectingNode s) (isLabelsAlwaysVisible s) (isAllowOverlap s) v
    (isDrawPreview s) (zoom s) (offsetX s) (offsetY s) (canvasX s) (canvasY
    s).
Definition set_isDrawPreview (v : bool) (s : State) : State :=
  mkState (heap s) (nodes s) (edges s) (toasts s) (undoStack s) (redoStack
    s) (worldBounds s) (selectedNode s) (hoveredNode s) (draggedNode s)
    (isConnectingNode s) (isLabelsAlwaysVisible s) (isAllowOverlap s)
    (isBoundaryStatic s) v (zoom s) (offsetX s) (offsetY s) (canvasX s)
    (canvasY s).
Definition set_zoom (v : R) (s : State) : State :=
  mkState (heap s) (nodes s) (edges s) (toasts s) (undoStack s) (redoStack
    s) (worldBounds s) (selectedNode s) (hoveredNode s) (draggedNode s)
    (isConnectingNode s) (isLabelsAlwaysVisible s) (isAllowOverlap s)
    (isBoundaryStatic s) (isDrawPreview s) v (offsetX s) (offsetY s)
    (canvasX s) (canvasY s).
Definition set_offsetX (v : R) (s : State) : State :=
  mkState (heap s) (nodes s) (edges s) (toasts s) (undoStack s) (redoStack
    s) (worldBounds s) (selectedNode s) (hoveredNode s) (draggedNode s)
    (isConnectingNode s) (isLabelsAlwaysVisible s) (isAllowOverlap s)
    (isBoundaryStatic s) (isDrawPreview s) (zoom s) v (offsetY s) (canvasX
    s) (canvasY s).
Definition set_offsetY (v : R) (s : State) : State :=
  mkState (heap s) (nodes s) (edges s) (toasts s) (undoStack s) (redoStack
    s) (worldBounds s) (selectedNode s) (hoveredNode s) (draggedNode s)
    (isConnectingNode s) (isLabelsAlwaysVisible s) (isAllowOverlap s)
    (isBoundaryStatic s) (isDrawPreview s) (zoom s) (offsetX s) v (canvasX
    s) (canvasY s).
Definition set_canvasX (v : R) (s : State) : State :=
  mkState (heap s) (nodes s) (edges s) (toasts s) (undoStack s) (redoStack
    s) (worldBounds s) (selectedNode s) (hoveredNode s) (draggedNode s)
    (isConnectingNode s) (isLabelsAlwaysVisible s) (isAllowOverlap s)
    (isBoundaryStatic s) (isDrawPreview s) (zoom s) (offsetX s) (offsetY s)
    v (canvasY s).
Definition set_canvasY (v : R) (s : State) : State :=
  mkState (heap s) (nodes s) (edges s) (toasts s) (undoStack s) (redoStack
    s) (worldBounds s) (selectedNode s) (hoveredNode s) (draggedNode s)
    (isConnectingNode s) (isLabelsAlwaysVisible s) (isAllowOverlap s)
    (isBoundaryStatic s) (isDrawPreview s) (zoom s) (offsetX s) (offsetY s)
    (canvasX s) v.

(** ** The p5 environment of a handler call *)

Inductive Button : Type := LEFT | RIGHT | CENTER.

#[global] Instance Button_eq_dec : EqDecision Button.
Proof. solve_decision. Defined.

(** What p5 exposes when a handler runs: pointer position now and at the
    previous frame, canvas size, the pressed button, whether the space key
    is held ([keyIsDown(KEY_CODE_MAP['space'])]) and the clock. *)
Record Env : Type := mkEnv {
  mouseX : R; mouseY : R; pmouseX : R; pmouseY : R;
  width : R; height : R;
  mouseButton : Button; spaceDown : bool; millis : R }.

(** How a call ends: normally, or by a thrown exception. *)
Inductive completion : Type := Normal | Throw.

(** The value [JSON.parse] returns for a loaded file, as far as
    [restoreFromSnapshot] looks into it: [null], or an object whose
    [nodes] and [edges] properties are each either absent ([None], read as
    [undefined]) or an array of well-typed entries. *)
Inductive JsonDoc : Type :=
  | JNull
  | JObject (doc_nodes : option (list NodeData))
            (doc_edges : option (list (Z * Z))).

(** The file handed to [handleFileLoad]; [data] is [None] when
    [JSON.parse] rejects the text with a syntax error. *)
Record File : Type := mkFile {
  type : string; subtype : string; data : option JsonDoc }.

(** ** Camera and coordinates *)

Section Camera.
Local Open Scope R_scope.

Definition screenToWorld (mx my : R) (s : State) : R * R :=
  let worldX := (mx - offsetX s) / zoom s in
  let worldY := (my - offsetY s) / zoom s in
  (worldX, worldY).

(** The transform [draw] installs before drawing the world,
    [translate(offsetX, offsetY); scale(zoom)]: where a world point
    lands on the screen. *)
Definition worldToScreen (wx wy : R) (s : State) : R * R :=
  (wx * zoom s + offsetX s, wy * zoom s + offsetY s).

Definition applyZoom (delta pivotX pivotY : R) (s : State) : State :=
  let newZoom := zoom s + delta in
  let newZoom := constrain newZoom MIN_ZOOM MAX_ZOOM in
  let world := screenToWorld pivotX pivotY s in
  let s := set_offsetX (pivotX - fst world * newZoom) s in
  let s := set_offsetY (pivotY - snd world * newZoom) s in
  set_zoom newZoom s.

Definition getCanvasMousePos (env : Env) (s : State) : State :=
  let world := screenToWorld (mouseX env) (mouseY env) s in
  let s := set_canvasX (fst world) s in
  set_canvasY (snd world) s.

Definition updateWorldBounds (env : Env) (s : State) : State :=
  if isBoundaryStatic s then
    set_worldBounds (Bounds.mk 0 (width env) 0 (height env)) s
  else
    let topLeft := screenToWorld 0 0 s in
    let bottomRight := screenToWorld (width env) (height env) s in
    set_worldBounds
      (Bounds.mk (fst topLeft) (fst bottomRight)
                 (snd topLeft) (snd bottomRight)) s.

Definition home (s : State) : State :=
  let s := set_zoom 1 s in
  let s := set_offsetX 0 s in
  set_offsetY 0 s.

Definition zoomIn (env : Env) (s : State) : State :=
  applyZoom 0.1 (width env / 2) (height env / 2) s.

Definition zoomOut (env : Env) (s : State) : State :=
  applyZoom (- 0.1) (width env / 2) (height env / 2) s.

(** [handleZoom]: [sliderValue] is what the zoom slider reports. *)
Definition handleZoom (sliderValue : R) (env : Env) (s : State) : State :=
  let delta := sliderValue - zoom s in
  applyZoom delta (width env / 2) (height env / 2) s.

(** [mouseWheel(event)]: [delta] is [event.delta]. *)
Definition mouseWheel (delta : R) (env : Env) (s : State) : State :=
  let zoomSensitivity := - 0.001 in
  applyZoom (delta * zoomSensitivity) (mouseX env) (mouseY env) s.
End Camera.

(** ** Notifications *)

Section Toasts.
Local Open Scope R_scope.

(** [createToast(message)] with the default duration. *)
Definition createToast (m : Message) (env : Env) (s : State) : State :=
  set_toasts (toasts s ++ [mkToast m (millis env) 3000]) s.

(** The expiry done by [drawToasts]: entries older than their duration
    are spliced out. *)
Definition drawToasts (env : Env) (s : State) : State :=
  set_toasts
    (List.filter (λ t, negb (Rgtb (millis env - createdAt t) (duration t)))
                 (toasts s)) s.
End Toasts.

(** ** History *)

Definition snapshot_node (n : Node.t) : NodeData :=
  {| d_x := Node.x n; d_y := Node.y n; d_id := Node.id n;
     d_label := Node.label n; d_speed := Node.speed n;
     d_friction := Node.friction n; d_tx := Node.tx n; d_ty := Node.ty n |}.

Definition createSnapshot (s : State) : Snapshot :=
  let snapshotNodes := map (λ n : ref, snapshot_node (heap s !!! n)) (nodes s) in
  let snapshotEdges :=
    map (λ e : ref * ref,
           (Node.id (heap s !!! e.1), Node.id (heap s !!! e.2))) (edges s) in
  {| snap_nodes := snapshotNodes; snap_edges := snapshotEdges |}.

Definition saveState (s : State) : State :=
  let s := set_redoStack [] s in
  let s := set_undoStack (undoStack s ++ [createSnapshot s]) s in
  if bool_decide (HISTORY_LIMIT < length (undoStack s))
  then set_undoStack (tail (undoStack s)) s
  else s.

(** [Object.assign(newNode, nData)]: the eight persisted fields overwrite
    the freshly constructed node. *)
Definition assign (n : Node.t) (d : NodeData) : Node.t :=
  {| Node.x := d_x d; Node.y := d_y d; Node.vx := Node.vx n;
     Node.vy := Node.vy n; Node.r := Node.r n; Node.id := d_id d;
     Node.label := d_label d; Node.tx := d_tx d; Node.ty := d_ty d;
     Node.speed := d_speed d; Node.friction := d_friction d;
     Node.labelVisible := Node.labelVisible n |}.

Definition restore_node (labels : bool) (nData : NodeData) : Node.t :=
  let newNode := Node.new (d_x nData) (d_y nData) (d_id nData) labels in
  assign newNode nData.

(** [nodes.find(n => n.id === i)] *)
Definition find_node (h : list Node.t) (ns : list ref) (i : Z) : option ref :=
  List.find (λ n : ref, bool_decide (Node.id (h !!! n) = i)) ns.

Definition restore_edge (h : list Node.t) (ns : list ref) (e : Z * Z)
  : option (ref * ref) :=
  match find_node h ns e.1, find_node h ns e.2 with
  | Some nodeA, Some nodeB => Some (nodeA, nodeB)
  | _, _ => None
  end.

(** [restoreFromSnapshot(snapshot)].  The selection is cleared first;
    reading [.nodes] of [null], or calling [.map] on an absent [nodes] or
    [edges], throws at the point it is reached, with everything assigned
    before it kept. *)
Definition restoreFromSnapshot (snapshot : JsonDoc) (s : State)
  : completion * State :=
  let s := set_selectedNode None s in
  let s := set_draggedNode None s in
  let s := set_hoveredNode None s in
  let s := set_isConnectingNode false s in
  match snapshot with
  | JNull => (Throw, s)
  | JObject None _ => (Throw, s)
  | JObject (Some nds) es =>
      let fresh := map (restore_node (isLabelsAlwaysVisible s)) nds in
      let s := set_nodes (seq (length (heap s)) (length nds))
                         (set_heap (heap s ++ fresh) s) in
      match es with
      | None => (Throw, s)
      | Some es =>
          (Normal, set_edges (omap (restore_edge (heap s) (nodes s)) es) s)
      end
  end.

(** A snapshot taken by [createSnapshot] is a well-formed document. *)
Definition doc_of_snapshot (p : Snapshot) : JsonDoc :=
  JObject (Some (snap_nodes p)) (Some (snap_edges p)).

(** [undo()].  Past the guard the stack has at least two entries, so both
    [last] lookups succeed; the [None] branches are never taken. *)
Definition undo (env : Env) (s : State) : completion * State :=
  if bool_decide (length (undoStack s) ≤ 1) then
    (Normal, createToast MsgNothingToUndo env s)
  else
    match last (undoStack s) with
    | None => (Throw, s)
    | Some currentState =>
        let s := set_undoStack (removelast (undoStack s)) s in
        let s := set_redoStack (redoStack s ++ [currentState]) s in
        match last (undoStack s) with
        | None => (Throw, s)
        | Some prevState => restoreFromSnapshot (doc_of_snapshot prevState) s
        end
    end.

(** [redo()] *)
Definition redo (env : Env) (s : State) : completion * State :=
  match last (redoStack s) with
  | None => (Normal, createToast MsgNothingToRedo env s)
  | Some nextState =>
      let s := set_redoStack (removelast (redoStack s)) s in
      let s := set_undoStack (undoStack s ++ [nextState]) s in
      restoreFromSnapshot (doc_of_snapshot nextState) s
  end.

(** [saveGraph()]: the download itself is p5's; the sketch only toasts. *)
Definition saveGraph (env : Env) (s : State) : State :=
  createToast MsgSaved env s.

(** [handleFileLoad(file)]: the [try] block runs [JSON.parse] and
    [restoreFromSnapshot]; whatever either throws lands in the [catch],
    which only adds a toast to the state reached so far. *)
Definition handleFileLoad (file : File) (env : Env) (s : State) : State :=
  if bool_decide (type file ≠ "application" ∨ subtype file ≠ "json") then
    createToast MsgNotJson env s
  else
    match data file with
    | None => createToast MsgParseError env s
    | Some snapshot =>
        match restoreFromSnapshot snapshot s with
        | (Throw, s) => createToast MsgParseError env s
        | (Normal, s) =>
            let s := home s in
            let s := set_undoStack [createSnapshot s] s in
            let s := set_redoStack [] s in
            createToast MsgLoaded env s
        end
    end.

(** ** Logic and services *)

(** [updateNodesID()]: [nodes[i].id = i + 1], for [i] from [i0] on. *)
Fixpoint updateNodesID_from (i : nat) (ns : list ref) (h : list Node.t)
  : list Node.t :=
  match ns with
  | [] => h
  | n :: rest =>
      updateNodesID_from (S i) rest
        (alter (Node.with_id (Z.of_nat i + 1)) n h)
  end.

Definition updateNodesID (s : State) : State :=
  set_heap (updateNodesID_from 0 (nodes s) (heap s)) s.

(** Whether [e] joins [a] and [b], in either orientation. *)
Definition joins (a b : ref) (e : ref * ref) : Prop :=
  (e.1 = a ∧ e.2 = b) ∨ (e.1 = b ∧ e.2 = a).

#[global] Instance joins_dec a b e : Decision (joins a b e).
Proof. unfold joins. apply _. Defined.

Definition attemptConnection (targetNode : option ref) (env : Env) (s : State)
  : State :=
  match selectedNode s, targetNode with
  | Some sel, Some tgt =>
      if decide (sel = tgt) then s
      else
        let exists_ := existsb (λ e, bool_decide (joins sel tgt e)) (edges s) in
        let s :=
          if negb exists_ then
            let s := set_edges (edges s ++ [(sel, tgt)]) s in
            let s := saveState s in
            createToast (MsgConnected (Node.id (heap s !!! sel))
                                      (Node.id (heap s !!! tgt))) env s
          else createToast MsgAlreadyConnected env s in
        let s := set_isConnectingNode false s in
        set_selectedNode None s
  | _, _ => s
  end.

Definition handleConnectButton (env : Env) (s : State) : State :=
  match selectedNode s with
  | None => createToast MsgSelectFirst env s
  | Some _ => set_isConnectingNode (negb (isConnectingNode s)) s
  end.

Definition connectModeOn (env : Env) (s : State) : State :=
  if negb (isConnectingNode s) then handleConnectButton env s else s.

Definition connectModeOff (s : State) : State :=
  if isConnectingNode s then
    let s := set_isConnectingNode false s in
    set_selectedNode None s
  else s.

Definition handleLabelButton (s : State) : State :=
  let s := set_isLabelsAlwaysVisible (negb (isLabelsAlwaysVisible s)) s in
  set_heap
    (fold_left (λ h n, alter (Node.with_labelVisible (isLabelsAlwaysVisible s)) n h)
               (nodes s) (heap s)) s.

Definition handleOverlapButton (s : State) : State :=
  set_isAllowOverlap (negb (isAllowOverlap s)) s.

Definition handleBoundaryButton (s : State) : State :=
  set_isBoundaryStatic (negb (isBoundaryStatic s)) s.

Definition handlePreviewButton (s : State) : State :=
  set_isDrawPreview (negb (isDrawPreview s)) s.

(** ** Pointer handlers *)

(** [nodes.indexOf(o)]: the first position holding [o], or [-1]; [null]
    is never an element. *)
Fixpoint index_from (i : Z) (ns : list ref) (n : ref) : Z :=
  match ns with
  | [] => -1
  | m :: rest => if decide (m = n) then i else index_from (i + 1) rest n
  end.

Definition indexOf (ns : list ref) (o : option ref) : Z :=
  match o with
  | None => -1
  | Some n => index_from 0 ns n
  end.

(** [a.splice(start, 1)]: a negative [start] counts from the end. *)
Definition splice1 {A} (start : Z) (a : list A) : list A :=
  let len := Z.of_nat (length a) in
  let k := if (start <? 0)%Z then Z.max (len + start) 0 else Z.min start len in
  delete (Z.to_nat k) a.

Definition outside_canvas (env : Env) : bool :=
  Rltb (mouseX env) 0 || Rgtb (mouseX env) (width env)
  || Rltb (mouseY env) 0 || Rgtb (mouseY env) (height env).

(** The right-button branch of [mousePressed]. *)
Definition deleteHovered (s : State) : State :=
  let indexH := indexOf (nodes s) (hoveredNode s) in
  let indexS := indexOf (nodes s) (selectedNode s) in
  match hoveredNode s with
  | None => s
  | Some hovered =>
      let s := set_nodes (splice1 indexH (nodes s)) s in
      let s := set_edges
                 (filter (λ edge : ref * ref, edge.1 ≠ hovered ∧ edge.2 ≠ hovered)
                         (edges s)) s in
      let s := if bool_decide (indexS = indexH)
               then set_selectedNode None s else s in
      let s := updateNodesID s in
      saveState s
  end.

(** The node-creating branch of [mousePressed]. *)
Definition createNode (s : State) : State :=
  let newNode := Node.new (canvasX s) (canvasY s)
                   (Z.of_nat (length (nodes s)) + 1) (isLabelsAlwaysVisible s) in
  let s := set_nodes (nodes s ++ [length (heap s)])
                     (set_heap (heap s ++ [newNode]) s) in
  let s := set_selectedNode None s in
  let s := set_isConnectingNode false s in
  saveState s.

Definition mousePressed (env : Env) (s : State) : State :=
  if outside_canvas env then s
  else if decide (mouseButton env = RIGHT) then deleteHovered s
  else
    let s :=
      if negb (bool_decide (is_Some (hoveredNode s))) && negb (spaceDown env)
      then createNode s
      else if negb (isConnectingNode s)
      then set_selectedNode (hoveredNode s) s
      else attemptConnection (hoveredNode s) env s in
    if bool_decide (selectedNode s = hoveredNode s)
       && bool_decide (is_Some (hoveredNode s))
       && negb (isConnectingNode s)
    then set_draggedNode (selectedNode s) s
    else s.

Definition mouseDragged (env : Env) (s : State) : State :=
  if outside_canvas env then s
  else
    match draggedNode s with
    | Some n =>
        set_heap (alter (Node.with_target (canvasX s) (canvasY s)) n (heap s)) s
    | None =>
        if spaceDown env then
          let s := set_offsetX (offsetX s + (mouseX env - pmouseX env))%R s in
          set_offsetY (offsetY s + (mouseY env - pmouseY env))%R s
        else s
    end.

Definition mouseReleased (s : State) : State :=
  match draggedNode s with
  | Some _ => saveState (set_draggedNode None s)
  | None => s
  end.

(** [windowResized()]: [env] carries the size after [resizeCanvas]. *)
Definition windowResized (env : Env) (s : State) : State :=
  set_heap
    (fold_left
       (λ h n,
          alter (λ nd, Node.with_target
                         (constrain (Node.tx nd) 0 (width env))
                         (constrain (Node.ty nd) 0 (height env)) nd) n h)
       (nodes s) (heap s)) s.

(** ** The frame *)

Definition updateHoveredNode (s : State) : State :=
  set_hoveredNode
    (List.find (λ n : ref, Node.isHovered (canvasX s) (canvasY s) (heap s !!! n))
               (nodes s)) s.

(** The body of the first loop of [drawNodes] for one node. *)
Definition force_pass (overlap : bool) (wb : Bounds.t) (ns : list ref)
    (h : list Node.t) (n : ref) : list Node.t :=
  let h := if overlap then h else Node.applyRepulsion ns n h in
  alter (Node.applyBoundary wb) n h.

(** The body of the second loop of [drawNodes] for one node. *)
Definition update_pass (h : list Node.t) (n : ref) : list Node.t :=
  alter Node.update n h.

(** The physics of [drawNodes] (drawing calls left out). *)
Definition drawNodes (s : State) : State :=
  let h := fold_left (force_pass (isAllowOverlap s) (worldBounds s) (nodes s))
                     (nodes s) (heap s) in
  let h := fold_left update_pass (nodes s) h in
  set_heap h s.

(** [draw()]: what one frame does to the state. *)
Definition draw (env : Env) (s : State) : State :=
  let s := getCanvasMousePos env s in
  let s := updateWorldBounds env s in
  let s := updateHoveredNode s in
  let s := drawNodes s in
  drawToasts env s.

(** ** The running sketch *)

(** The globals as declared. *)
Definition globals : State :=
  {| heap := []; nodes := []; edges := []; toasts := [];
     undoStack := []; redoStack := [];
     worldBounds := Bounds.mk 0 0 0 0;
     selectedNode := None; hoveredNode := None; draggedNode := None;
     isConnectingNode := false; isLabelsAlwaysVisible := false;
     isAllowOverlap := false; isBoundaryStatic := false; isDrawPreview := true;
     zoom := 1; offsetX := 0; offsetY := 0; canvasX := 0; canvasY := 0 |}.

(** [setup()] pushes the sentinel snapshot of the empty scene. *)
Definition setup : State := saveState globals.

(** What can happen to the sketch after [setup]: a frame, a pointer or
    wheel event, a widget, a registered hotkey, a file load, a resize. *)
Inductive Event : Type :=
  | EDraw | EMousePressed | EMouseDragged | EMouseReleased
  | EMouseWheel (delta : R) | EWindowResized
  | EConnectButton | ELabelButton | EOverlapButton | EBoundaryButton
  | EPreviewButton | EZoomSlider (value : R) | ESaveGraph
  | EFileLoad (file : File)
  | EKeyEscape | EKeyC | EKeyPageUp | EKeyPageDown | EKeyHome
  | EKeyCtrlZ | EKeyCtrlY.

Definition step (ev : Event) (env : Env) (s : State) : State :=
  match ev with
  | EDraw => draw env s
  | EMousePressed => mousePressed env s
  | EMouseDragged => mouseDragged env s
  | EMouseReleased => mouseReleased s
  | EMouseWheel delta => mouseWheel delta env s
  | EWindowResized => windowResized env s
  | EConnectButton => handleConnectButton env s
  | ELabelButton => handleLabelButton s
  | EOverlapButton => handleOverlapButton s
  | EBoundaryButton => handleBoundaryButton s
  | EPreviewButton => handlePreviewButton s
  | EZoomSlider v => handleZoom v env s
  | ESaveGraph => saveGraph env s
  | EFileLoad file => handleFileLoad file env s
  | EKeyEscape => connectModeOff s
  | EKeyC => connectModeOn env s
  | EKeyPageUp => zoomIn env s
  | EKeyPageDown => zoomOut env s
  | EKeyHome => home s
  | EKeyCtrlZ => (undo env s).2
  | EKeyCtrlY => (redo env s).2
  end.

Inductive reachable : State → Prop :=
  | reach_setup : reachable setup
  | reach_step ev env s : reachable s → reachable (step ev env s).

(** ** Edge-set vocabulary *)

(** The [connect(a, b)] of the specification: with [a] selected, a
    connection to [b] is attempted. *)
Definition connect (a b : ref) (env : Env) (s : State) : State :=
  attemptConnection (Some b) env (set_selectedNode (Some a) s).

(** A run of connect calls on the unordered pair [{a, b}]: each call
    comes with its environment and says whether it is [connect(b, a)]
    ([true]) or [connect(a, b)] ([false]). *)
Fixpoint connect_many (a b : ref) (calls : list (bool * Env)) (s : State)
  : State :=
  match calls with
  | [] => s
  | (flipped, env) :: rest =>
      connect_many a b rest
        (if flipped then connect b a env s else connect a b env s)
  end.

(** No self-loop, and no two entries between the same unordered pair. *)
Definition simple_edges (es : list (ref * ref)) : Prop :=
  (∀ e, e ∈ es → e.1 ≠ e.2)
  ∧ (∀ i j e1 e2, es !! i = Some e1 → es !! j = Some e2 →
       joins e1.1 e1.2 e2 → i = j).

(** The shape of the node array the sketch maintains: every entry is the
    address of an allocated [Node], and no instance is listed twice. *)
Definition wf (s : State) : Prop :=
  NoDup (nodes s) ∧ ∀ n, n ∈ nodes s → n < length (heap s).

(** ** The frame as section 4.3 of the specification words it

    The three contributions (repulsion, boundary, spring) are summed into
    the velocity with no clamp in between; then, once, friction is
    applied, the velocity is clamped to [[-5, 5]] on both axes, and the
    position is advanced.  This is the wording, not the code; the code is
    [drawNodes]. *)
Definition claimed_frame (s : State) (n : ref) : Node.t :=
  let me := heap s !!! n in
  let f := if isAllowOverlap s then (0, 0)%R
           else Node.repulsion (heap s) (nodes s) n in
  let acc := Node.with_vel (Node.vx me + f.1) (Node.vy me + f.2) me in
  let acc := Node.applyBoundary (worldBounds s) acc in
  let vx1 := (Node.vx acc + (Node.tx me - Node.x me) * Node.speed me)%R in
  let vy1 := (Node.vy acc + (Node.ty me - Node.y me) * Node.speed me)%R in
  let vx2 := constrain (vx1 * Node.friction me) (-5) 5 in
  let vy2 := constrain (vy1 * Node.friction me) (-5) 5 in
  Node.with_pos (Node.x me + vx2) (Node.y me + vy2) (Node.with_vel vx2 vy2 me).

(** What the code does to one node in a frame: the composition of the
    three methods [drawNodes] calls on it, the repulsion force being read
    from the store [h] of the start of the frame. *)
Definition frame_of_node (overlap : bool) (wb : Bounds.t) (h : list Node.t)
    (ns : list ref) (n : ref) (me : Node.t) : Node.t :=
  Node.update
    (Node.applyBoundary wb
       (if overlap then me else Node.repulse (Node.repulsion h ns n) me)).

(** Position and radius of every object agree in the two stores. *)
Definition same_geometry (h h' : list Node.t) : Prop :=
  ∀ k, Node.x (h !!! k) = Node.x (h' !!! k)
       ∧ Node.y (h !!! k) = Node.y (h' !!! k)
       ∧ Node.r (h !!! k) = Node.r (h' !!! k).

(** ** Sample scenes

    The scenario of the specification: two nodes created at world
    (100, 100) and (200, 100), node 1 selected, connect mode entered, node
    2 clicked. *)

Definition env0 : Env := mkEnv 100 100 100 100 800 600 LEFT false 0.
Definition env_right : Env := mkEnv 100 100 100 100 800 600 RIGHT false 0.

Definition one_node : State :=
  createNode (set_canvasY 100 (set_canvasX 100 setup)).

Definition two_nodes : State := createNode (set_canvasX 200 one_node).

Definition connecting : State :=
  set_isConnectingNode true (set_selectedNode (Some 0) two_nodes).

Definition connected : State := attemptConnection (Some 1) env0 connecting.

(** The pointer rests on the first node. *)
Definition hovering : State := set_hoveredNode (Some 0) connected.

(** The connected scene with the second node selected. *)
Definition editing : State := set_selectedNode (Some 1) hovering.

(** A single node at (100, 100), in a world of 800 by 600, being dragged:
    the pointer has moved to world (200, 100) and [mouseDragged] has made
    that the node's target. *)
Definition dragging : State :=
  mouseDragged env0
    (set_canvasX 200 (set_draggedNode (Some 0) (updateWorldBounds env0 one_node))).

(** The node of [dragging] as the store holds it. *)
Definition lone : Node.t :=
  Node.mk 100 100 0 0 20 1 "node 1" 200 100 0.1 0.8 false.

(** A loaded file whose text parses to an object with an empty [nodes]
    array and no [edges] property. *)
Definition file_without_edges : File :=
  mkFile "application" "json" (Some (JObject (Some []) None)).

(** A saved graph of three nodes in a row, at (100, 100), (300, 100) and
    (500, 100), the second joined to the third. *)
Definition three_node_file : File :=
  mkFile "application" "json"
    (Some (JObject
       (Some [mkNodeData 100 100 1 "node 1" 0.1 0.8 100 100;
              mkNodeData 300 100 2 "node 2" 0.1 0.8 300 100;
              mkNodeData 500 100 3 "node 3" 0.1 0.8 500 100])
       (Some [(2, 3)%Z]))).

(** A session on that file: it is loaded into the fresh sketch, a frame is
    drawn with the pointer at screen (100, 100), which is on the first
    node, and the right button is then pressed twice with no frame in
    between. *)
Definition loaded : State := step (EFileLoad three_node_file) env0 setup.
Definition pointing : State := step EDraw env0 loaded.
Definition deleted_once : State := step EMousePressed env_right pointing.
Definition deleted_twice : State := step EMousePressed env_right deleted_once.

(** ** Hotkeys *)

(** [KEY_NAME_MAP]: names of the non-printable keys, by key code (listed
    in the order [for ... in] enumerates the object: ascending codes). *)
Definition KEY_NAME_entries : list (nat * string) :=
  [(8, "backspace"); (9, "tab"); (13, "enter"); (27, "escape");
   (32, "space"); (33, "pageup"); (34, "pagedown"); (35, "end");
   (36, "home"); (37, "arrowleft"); (38, "arrowup"); (39, "arrowright");
   (40, "arrowdown"); (46, "delete")].

Definition KEY_NAME_MAP : gmap nat string := list_to_map KEY_NAME_entries.

(** [KEY_CODE_MAP], filled by the loop
    [for (const code in KEY_NAME_MAP) KEY_CODE_MAP[KEY_NAME_MAP[code]] = Number(code)]. *)
Definition KEY_CODE_MAP : gmap string nat :=
  fold_left (λ m code,
               match KEY_NAME_MAP !! code with
               | Some name => <[name := code]> m
               | None => m
               end)
            (map fst KEY_NAME_entries) ∅.

(** [String.prototype.toLowerCase] on ASCII text. *)
Definition lower_ascii (a : Ascii.ascii) : Ascii.ascii :=
  let n := Ascii.nat_of_ascii a in
  if (65 <=? n)%nat && (n <=? 90)%nat then Ascii.ascii_of_nat (n + 32) else a.

Fixpoint toLowerCase (s : string) : string :=
  match s with
  | EmptyString => EmptyString
  | String a rest => String (lower_ascii a) (toLowerCase rest)
  end.

(** What [keyIsDown(CONTROL)], [keyIsDown(SHIFT)] and [keyIsDown(ALT)]
    report when a key event arrives. *)
Record Modifiers : Type := mkModifiers {
  ctrlDown : bool; shiftDown : bool; altDown : bool }.

(** [getKeyCombo(k, c)]: [k] is p5's [key] (ASCII text), [c] its
    [keyCode]. *)
Definition getKeyCombo (mods : Modifiers) (k : string) (c : nat) : string :=
  let parts := [] in
  let parts := if ctrlDown mods then parts ++ ["ctrl"] else parts in
  let parts := if shiftDown mods then parts ++ ["shift"] else parts in
  let parts := if altDown mods then parts ++ ["alt"] else parts in
  let primaryKey :=
    match KEY_NAME_MAP !! c with
    | Some name => Some name
    | None => if (String.length k =? 1)%nat then Some (toLowerCase k) else None
    end in
  let parts := match primaryKey with
               | Some p => parts ++ [p]
               | None => parts
               end in
  String.concat "+" parts.

(** The zero-argument actions the sketch registers. *)
Inductive Action : Type :=
  | ActConnectModeOff | ActConnectModeOn | ActLabels | ActOverlap
  | ActZoomIn | ActZoomOut | ActHome | ActUndo | ActRedo.

Definition run_action (a : Action) (env : Env) (s : State) : State :=
  match a with
  | ActConnectModeOff => connectModeOff s
  | ActConnectModeOn => connectModeOn env s
  | ActLabels => handleLabelButton s
  | ActOverlap => handleOverlapButton s
  | ActZoomIn => zoomIn env s
  | ActZoomOut => zoomOut env s
  | ActHome => home s
  | ActUndo => (undo env s).2
  | ActRedo => (redo env s).2
  end.

(** [regHotkey(keyCombo, action)] *)
Definition regHotkey (keyCombo : string) (action : Action)
    (hotkeys : gmap string Action) : gmap string Action :=
  <[toLowerCase keyCombo := action]> hotkeys.

(** The registry as [setup] leaves it. *)
Definition hotkeys : gmap string Action :=
  let h := regHotkey "escape" ActConnectModeOff ∅ in
  let h := regHotkey "c" ActConnectModeOn h in
  let h := regHotkey "l" ActLabels h in
  let h := regHotkey "o" ActOverlap h in
  let h := regHotkey "pageup" ActZoomIn h in
  let h := regHotkey "pagedown" ActZoomOut h in
  let h := regHotkey "home" ActHome h in
  let h := regHotkey "ctrl+z" ActUndo h in
  regHotkey "ctrl+y" ActRedo h.

(** [keyPressed()]: a registered combo runs its action, any other key is
    ignored. *)
Definition keyPressed (mods : Modifiers) (k : string) (c : nat) (env : Env)
    (s : State) : State :=
  let combo := getKeyCombo mods k c in
  match hotkeys !! combo with
  | Some action => run_action action env s
  | None => s
  end.

(** ** Vocabulary of the further properties *)

(** The depth bound the history keeps. *)
Definition history_bounded (s : State) : Prop :=
  1 ≤ length (undoStack s)
  ∧ length (undoStack s) + length (redoStack s) ≤ HISTORY_LIMIT.

(** The ids a snapshot's edges can refer to. *)
Definition snapshot_ids (nds : list NodeData) : list Z := map d_id nds.

(** Both ends of an id pair name a node of the snapshot. *)
Definition resolvable (nds : list NodeData) (e : Z * Z) : Prop :=
  e.1 ∈ snapshot_ids nds ∧ e.2 ∈ snapshot_ids nds.

#[global] Instance resolvable_dec nds e : Decision (resolvable nds e).
Proof. unfold resolvable. apply _. Defined.

Section PhysicsVocabulary.
Local Open Scope R_scope.

(** The node lies within the rectangle, radius included. *)
Definition inside_bounds (wb : Bounds.t) (n : Node.t) : Prop :=
  Bounds.left wb <= Node.x n - Node.r n ∧ Node.x n + Node.r n <= Bounds.right wb
  ∧ Bounds.top wb <= Node.y n - Node.r n
  ∧ Node.y n + Node.r n <= Bounds.bottom wb.

(** The node sits on its target with no velocity. *)
Definition at_rest (n : Node.t) : Prop :=
  Node.vx n = 0 ∧ Node.vy n = 0 ∧ Node.tx n = Node.x n ∧ Node.ty n = Node.y n.

(** [o] is out of the reach of [me]'s repulsion: at least a diameter of
    [me] away, or within the 0.1 dead zone around its centre. *)
Definition out_of_reach (me o : Node.t) : Prop :=
  Node.r me * 2 <= dist (Node.x o) (Node.y o) (Node.x me) (Node.y me)
  ∨ dist (Node.x o) (Node.y o) (Node.x me) (Node.y me) <= 0.1.
End PhysicsVocabulary.

(** * Properties *)

(** ** Comparisons and clamping *)

Section NumberFacts.
Local Open Scope R_scope.

Lemma Rltb_true a b : a < b → Rltb a b = true.
Proof. intros H. unfold Rltb. destruct (Rlt_dec a b); [done | lra]. Qed.

Lemma Rltb_false a b : ¬ a < b → Rltb a b = false.
Proof. intros H. unfold Rltb. destruct (Rlt_dec a b); [lra | done]. Qed.

Lemma Rgtb_true a b : a > b → Rgtb a b = true.
Proof. intros H. unfold Rgtb. destruct (Rgt_dec a b); [done | lra]. Qed.

Lemma Rgtb_false a b : ¬ a > b → Rgtb a b = false.
Proof. intros H. unfold Rgtb. destruct (Rgt_dec a b); [lra | done]. Qed.

Lemma constrain_bounds n low high :
  low <= high → low <= constrain n low high <= high.
Proof.
  intros Hlh. unfold constrain. split; [apply Rmax_r |].
  apply Rmax_lub; [apply Rmin_r | exact Hlh].
Qed.

Lemma constrain_inside n low high :
  low <= n <= high → constrain n low high = n.
Proof.
  intros [Hl Hh]. unfold constrain.
  rewrite Rmin_left by exact Hh. apply Rmax_left, Hl.
Qed.

Lemma constrain_above n low high :
  low <= high → high <= n → constrain n low high = high.
Proof.
  intros Hlh Hn. unfold constrain.
  rewrite Rmin_right by exact Hn. apply Rmax_left, Hlh.
Qed.
End NumberFacts.

(** ** Camera *)

Section CameraFacts.
Local Open Scope R_scope.

Lemma MIN_ZOOM_le_MAX_ZOOM : MIN_ZOOM <= MAX_ZOOM.
Proof. unfold MIN_ZOOM, MAX_ZOOM. lra. Qed.

Lemma MIN_ZOOM_pos : 0 < MIN_ZOOM.
Proof. unfold MIN_ZOOM. lra. Qed.

Lemma zoom_applyZoom delta px py s :
  zoom (applyZoom delta px py s) = constrain (zoom s + delta) MIN_ZOOM MAX_ZOOM.
Proof. reflexivity. Qed.

Lemma applyZoom_in_range delta px py s :
  MIN_ZOOM <= zoom (applyZoom delta px py s) <= MAX_ZOOM.
Proof. rewrite zoom_applyZoom. apply constrain_bounds, MIN_ZOOM_le_MAX_ZOOM. Qed.

Lemma screenToWorld_after_worldToScreen (s : State) (wx wy : R) :
  zoom s ≠ 0 →
  screenToWorld (worldToScreen wx wy s).1 (worldToScreen wx wy s).2 s = (wx, wy).
Proof.
  intros Hz. unfold screenToWorld, worldToScreen; cbn [fst snd].
  f_equal; field; exact Hz.
Qed.

Lemma worldToScreen_after_screenToWorld (s : State) (sx sy : R) :
  zoom s ≠ 0 →
  worldToScreen (screenToWorld sx sy s).1 (screenToWorld sx sy s).2 s = (sx, sy).
Proof.
  intros Hz. unfold screenToWorld, worldToScreen; cbn [fst snd].
  f_equal; field; exact Hz.
Qed.

(** C8: for every world point and every camera whose zoom lies in
    [[MIN_ZOOM, MAX_ZOOM]], projecting to the screen with
    [screen = world * zoom + offset] and coming back with [screenToWorld]
    returns the world point, and going the other way round returns the
    screen point: the two mappings are mutual inverses (exactly so in
    real arithmetic). *)
Theorem screenToWorld_worldToScreen_inverse (s : State) (a b : R) :
  MIN_ZOOM <= zoom s <= MAX_ZOOM →
  screenToWorld (worldToScreen a b s).1 (worldToScreen a b s).2 s = (a, b)
  ∧ worldToScreen (screenToWorld a b s).1 (screenToWorld a b s).2 s = (a, b).
Proof.
  intros [Hlo _]. pose proof MIN_ZOOM_pos as Hpos.
  assert (zoom s ≠ 0) as Hz by lra.
  split.
  - apply screenToWorld_after_worldToScreen, Hz.
  - apply worldToScreen_after_screenToWorld, Hz.
Qed.

Lemma screenToWorld_worldToScreen_inverse_witness :
  screenToWorld (worldToScreen 3 4 (home globals)).1
                (worldToScreen 3 4 (home globals)).2 (home globals) = (3, 4)
  ∧ worldToScreen (screenToWorld 3 4 (home globals)).1
                  (screenToWorld 3 4 (home globals)).2 (home globals) = (3, 4).
Proof.
  apply (screenToWorld_worldToScreen_inverse (home globals) 3 4).
  unfold MIN_ZOOM, MAX_ZOOM. cbn. lra.
Defined.

(** C5: for every delta and pivot, [applyZoom] leaves the zoom inside
    [[MIN_ZOOM, MAX_ZOOM]], sets [offset' = pivot - worldAtPivot * newZoom],
    and the world point that was under the pivot screen coordinate is
    still under it afterwards. *)
Theorem applyZoom_clamps_and_keeps_pivot (s : State) (delta px py : R) :
  MIN_ZOOM <= zoom s <= MAX_ZOOM →
  let s' := applyZoom delta px py s in
  let world := screenToWorld px py s in
  MIN_ZOOM <= zoom s' <= MAX_ZOOM
  ∧ offsetX s' = px - world.1 * zoom s'
  ∧ offsetY s' = py - world.2 * zoom s'
  ∧ worldToScreen world.1 world.2 s = (px, py)
  ∧ screenToWorld px py s' = world
  ∧ worldToScreen world.1 world.2 s' = (px, py).
Proof.
  intros Hs s' world.
  assert (worldToScreen world.1 world.2 s = (px, py)) as Hbefore.
  { apply worldToScreen_after_screenToWorld.
    pose proof MIN_ZOOM_pos. lra. }
  pose proof (applyZoom_in_range delta px py s) as Hr. fold s' in Hr.
  pose proof MIN_ZOOM_pos as Hpos.
  assert (zoom s' ≠ 0) as Hz by lra.
  assert (offsetX s' = px - world.1 * zoom s') as HX by reflexivity.
  assert (offsetY s' = py - world.2 * zoom s') as HY by reflexivity.
  split; [exact Hr |]. split; [exact HX |]. split; [exact HY |].
  split; [exact Hbefore |]. split.
  - unfold screenToWorld at 1. rewrite HX, HY.
    rewrite (surjective_pairing world) at 3. f_equal; field; exact Hz.
  - unfold worldToScreen. rewrite HX, HY. f_equal; ring.
Qed.

Lemma applyZoom_clamps_and_keeps_pivot_witness :
  let s' := applyZoom 7 10 20 (home globals) in
  let world := screenToWorld 10 20 (home globals) in
  MIN_ZOOM <= zoom s' <= MAX_ZOOM
  ∧ offsetX s' = 10 - world.1 * zoom s'
  ∧ offsetY s' = 20 - world.2 * zoom s'
  ∧ worldToScreen world.1 world.2 (home globals) = (10, 20)
  ∧ screenToWorld 10 20 s' = world
  ∧ worldToScreen world.1 world.2 s' = (10, 20).
Proof.
  apply (applyZoom_clamps_and_keeps_pivot (home globals) 7 10 20).
  unfold MIN_ZOOM, MAX_ZOOM. cbn. lra.
Defined.
End CameraFacts.

(** ** Undo at the sentinel *)

(** C6: when only the sentinel remains on the undo stack (depth at most
    1), [undo] returns normally (it does not throw), adds the toast
    "Nothing to undo." and changes nothing else: the undo stack, the redo
    stack and the live scene are exactly as they were. *)
Theorem undo_at_sentinel_is_noop (env : Env) (s : State) :
  length (undoStack s) ≤ 1 →
  undo env s
  = (Normal,
     set_toasts (toasts s ++ [mkToast MsgNothingToUndo (millis env) 3000]) s)
  ∧ undoStack (undo env s).2 = undoStack s
  ∧ redoStack (undo env s).2 = redoStack s
  ∧ heap (undo env s).2 = heap s
  ∧ nodes (undo env s).2 = nodes s
  ∧ edges (undo env s).2 = edges s
  ∧ selectedNode (undo env s).2 = selectedNode s
  ∧ isConnectingNode (undo env s).2 = isConnectingNode s.
Proof.
  intros Hdepth.
  assert (undo env s = (Normal, createToast MsgNothingToUndo env s)) as ->.
  { unfold undo. rewrite bool_decide_eq_true_2 by exact Hdepth. reflexivity. }
  repeat split.
Qed.

Lemma undo_at_sentinel_is_noop_witness :
  undo (mkEnv 0 0 0 0 800 600 LEFT false 0) setup
  = (Normal,
     set_toasts (toasts setup ++ [mkToast MsgNothingToUndo 0 3000]) setup)
  ∧ undoStack (undo (mkEnv 0 0 0 0 800 600 LEFT false 0) setup).2 = undoStack setup
  ∧ redoStack (undo (mkEnv 0 0 0 0 800 600 LEFT false 0) setup).2 = redoStack setup
  ∧ heap (undo (mkEnv 0 0 0 0 800 600 LEFT false 0) setup).2 = heap setup
  ∧ nodes (undo (mkEnv 0 0 0 0 800 600 LEFT false 0) setup).2 = nodes setup
  ∧ edges (undo (mkEnv 0 0 0 0 800 600 LEFT false 0) setup).2 = edges setup
  ∧ selectedNode (undo (mkEnv 0 0 0 0 800 600 LEFT false 0) setup).2
    = selectedNode setup
  ∧ isConnectingNode (undo (mkEnv 0 0 0 0 800 600 LEFT false 0) setup).2
    = isConnectingNode setup.
Proof.
  apply (undo_at_sentinel_is_noop (mkEnv 0 0 0 0 800 600 LEFT false 0) setup).
  vm_compute. lia.
Defined.

(** ** Connecting *)

Lemma existsb_joins (a b : ref) (es : list (ref * ref)) :
  existsb (λ e, bool_decide (joins a b e)) es = true
  ↔ ∃ e, e ∈ es ∧ joins a b e.
Proof.
  rewrite existsb_exists. split.
  - intros (e & Hin & He). exists e. split; [by apply list_elem_of_In |].
    by apply bool_decide_eq_true in He.
  - intros (e & Hin & He). exists e. split; [by apply list_elem_of_In |].
    by apply bool_decide_eq_true.
Qed.

Lemma joins_sym (a b : ref) (e : ref * ref) : joins a b e ↔ joins b a e.
Proof. unfold joins. tauto. Qed.

(** The early return: no selection, no target, or target = selection. *)
Lemma attemptConnection_rejected (tgt : option ref) (env : Env) (s : State) :
  selectedNode s = None ∨ tgt = None ∨ tgt = selectedNode s →
  attemptConnection tgt env s = s.
Proof.
  unfold attemptConnection. intros H.
  destruct (selectedNode s) as [sel|], tgt as [t|]; try reflexivity.
  destruct (decide (sel = t)); [reflexivity |].
  destruct H as [H | [H | H]]; congruence.
Qed.

(** Past the early return, whatever the outcome. *)
Lemma attemptConnection_attempted (a b : ref) (env : Env) (s : State) :
  selectedNode s = Some a → a ≠ b →
  let s' := attemptConnection (Some b) env s in
  isConnectingNode s' = false ∧ selectedNode s' = None
  ∧ edges s' = if existsb (λ e, bool_decide (joins a b e)) (edges s)
               then edges s else edges s ++ [(a, b)].
Proof.
  intros Hsel Hne. unfold attemptConnection. rewrite Hsel.
  destruct (decide (a = b)) as [|_]; [done |].
  destruct (existsb _ (edges s)) eqn:Hex; cbn; repeat split.
  unfold saveState.
  destruct (bool_decide _); reflexivity.
Qed.

(** C9: a connect attempt on two distinct, non-null nodes exits connect
    mode and clears the selection, whether the edge was added or the pair
    was already connected; an attempt whose target is the selected node,
    or that has no target, returns at once and leaves the whole state,
    connect mode and selection included, as it was. *)
Theorem attemptConnection_mode_and_selection (env : Env) (s : State) :
  (∀ a b, selectedNode s = Some a → a ≠ b →
     isConnectingNode (attemptConnection (Some b) env s) = false
     ∧ selectedNode (attemptConnection (Some b) env s) = None)
  ∧ (∀ tgt, tgt = None ∨ tgt = selectedNode s →
     attemptConnection tgt env s = s
     ∧ isConnectingNode (attemptConnection tgt env s) = isConnectingNode s
     ∧ selectedNode (attemptConnection tgt env s) = selectedNode s).
Proof.
  split.
  - intros a b Hsel Hne.
    destruct (attemptConnection_attempted a b env s Hsel Hne) as (H1 & H2 & _).
    by split.
  - intros tgt Htgt.
    assert (attemptConnection tgt env s = s) as ->
      by (apply attemptConnection_rejected; tauto).
    done.
Qed.

Lemma attemptConnection_mode_and_selection_witness :
  (isConnectingNode (attemptConnection (Some 1) env0 connecting) = false
   ∧ selectedNode (attemptConnection (Some 1) env0 connecting) = None)
  ∧ attemptConnection (Some 0) env0 connecting = connecting
  ∧ attemptConnection None env0 connecting = connecting.
Proof.
  destruct (attemptConnection_mode_and_selection env0 connecting) as [Hyes Hno].
  split; [| split].
  - apply (Hyes 0 1); [reflexivity | lia].
  - apply (Hno (Some 0)). right. reflexivity.
  - apply (Hno None). left. reflexivity.
Defined.

Lemma outside_canvas_false (env : Env) :
  (0 <= mouseX env <= width env)%R → (0 <= mouseY env <= height env)%R →
  outside_canvas env = false.
Proof.
  intros [Hx0 Hx1] [Hy0 Hy1]. unfold outside_canvas.
  rewrite !Rltb_false, !Rgtb_false by lra. reflexivity.
Qed.

Lemma outside_canvas_env0 : outside_canvas env0 = false.
Proof. apply outside_canvas_false; cbn; lra. Qed.

Lemma outside_canvas_env_right : outside_canvas env_right = false.
Proof. apply outside_canvas_false; cbn; lra. Qed.

(** ** Creating a node *)

Lemma saveState_frame (s : State) :
  heap (saveState s) = heap s ∧ nodes (saveState s) = nodes s
  ∧ edges (saveState s) = edges s ∧ toasts (saveState s) = toasts s
  ∧ selectedNode (saveState s) = selectedNode s
  ∧ hoveredNode (saveState s) = hoveredNode s
  ∧ draggedNode (saveState s) = draggedNode s
  ∧ isConnectingNode (saveState s) = isConnectingNode s
  ∧ zoom (saveState s) = zoom s.
Proof. unfold saveState. destruct (bool_decide _); repeat split. Qed.

Lemma createNode_frame (s : State) :
  nodes (createNode s) = nodes s ++ [length (heap s)]
  ∧ selectedNode (createNode s) = None
  ∧ isConnectingNode (createNode s) = false
  ∧ hoveredNode (createNode s) = hoveredNode s.
Proof.
  unfold createNode, saveState. cbn zeta.
  destruct (bool_decide _); repeat split.
Qed.

(** C10: whenever the node-creating branch of [mousePressed] fires
    (pointer inside the canvas, button other than the right one, nothing
    hovered, space not held), the new node is appended, the selection is
    cleared and connect mode is left. *)
Theorem mousePressed_create_clears_selection (env : Env) (s : State) :
  outside_canvas env = false → mouseButton env ≠ RIGHT →
  hoveredNode s = None → spaceDown env = false →
  nodes (mousePressed env s) = nodes s ++ [length (heap s)]
  ∧ selectedNode (mousePressed env s) = None
  ∧ isConnectingNode (mousePressed env s) = false.
Proof.
  intros Hin Hbtn Hhov Hspace. unfold mousePressed.
  rewrite Hin. destruct (decide (mouseButton env = RIGHT)) as [|_]; [done |].
  rewrite Hhov, Hspace. cbn [negb andb].
  rewrite (bool_decide_eq_false_2 (is_Some (@None ref))) by apply is_Some_None.
  cbn [negb andb].
  destruct (createNode_frame s) as (Hn & Hs & Hc & Hh).
  rewrite Hh, Hhov.
  rewrite (bool_decide_eq_false_2 (is_Some (@None ref))) by apply is_Some_None.
  rewrite andb_false_r. cbn [andb]. done.
Qed.

Lemma mousePressed_create_clears_selection_witness :
  nodes (mousePressed env0 connecting) = nodes connecting ++ [length (heap connecting)]
  ∧ selectedNode (mousePressed env0 connecting) = None
  ∧ isConnectingNode (mousePressed env0 connecting) = false.
Proof.
  apply (mousePressed_create_clears_selection env0 connecting).
  - exact outside_canvas_env0.
  - discriminate.
  - reflexivity.
  - reflexivity.
Defined.

(** ** The edge set under connect *)

Lemma edges_connect (a b : ref) (env : Env) (s : State) :
  edges (connect a b env s)
  = if decide (a = b) then edges s
    else if existsb (λ e, bool_decide (joins a b e)) (edges s)
         then edges s else edges s ++ [(a, b)].
Proof.
  unfold connect. destruct (decide (a = b)) as [->|Hne].
  - rewrite attemptConnection_rejected; [reflexivity |]. right; right. reflexivity.
  - destruct (attemptConnection_attempted a b env (set_selectedNode (Some a) s))
      as (_ & _ & He); [reflexivity | exact Hne |]. exact He.
Qed.

Lemma edges_connect_joined (a b : ref) (env : Env) (s : State) :
  (∃ e, e ∈ edges s ∧ joins a b e) → edges (connect a b env s) = edges s.
Proof.
  intros Hex. rewrite edges_connect. destruct (decide (a = b)); [done |].
  apply existsb_joins in Hex. by rewrite Hex.
Qed.

Lemma connect_many_joined (a b : ref) (calls : list (bool * Env)) (s : State) :
  (∃ e, e ∈ edges s ∧ joins a b e) →
  edges (connect_many a b calls s) = edges s.
Proof.
  revert s. induction calls as [|[flipped env] rest IH]; intros s Hex; [done |].
  cbn [connect_many].
  assert (edges (if flipped then connect b a env s else connect a b env s)
          = edges s) as Hsame.
  { destruct flipped; apply edges_connect_joined; [| exact Hex].
    destruct Hex as (e & Hin & He). exists e. split; [done |]. by apply joins_sym. }
  rewrite IH; rewrite Hsame; done.
Qed.

Lemma connect_many_grows (a b : ref) (calls : list (bool * Env)) (s : State) :
  edges (connect_many a b calls s) = edges s
  ∨ (a ≠ b ∧ (∀ e, e ∈ edges s → ¬ joins a b e)
     ∧ (edges (connect_many a b calls s) = edges s ++ [(a, b)]
        ∨ edges (connect_many a b calls s) = edges s ++ [(b, a)])).
Proof.
  revert s. induction calls as [|[flipped env] rest IH]; intros s; [by left |].
  cbn [connect_many].
  set (s1 := if flipped then connect b a env s else connect a b env s).
  destruct (decide (a = b)) as [->|Hne].
  { left. destruct (IH s1) as [-> | (Hne & _)]; [| done].
    subst s1. destruct flipped; rewrite edges_connect;
      destruct (decide (b = b)); done. }
  destruct (existsb (λ e, bool_decide (joins a b e)) (edges s)) eqn:Hex.
  { left. apply existsb_joins in Hex.
    apply (connect_many_joined a b ((flipped, env) :: rest) s Hex). }
  assert (∀ e, e ∈ edges s → ¬ joins a b e) as Hnone.
  { intros e Hin He. apply not_true_iff_false in Hex. apply Hex.
    apply existsb_joins. by exists e. }
  assert (existsb (λ e, bool_decide (joins b a e)) (edges s) = false) as Hex'.
  { apply not_true_iff_false. intros H. apply existsb_joins in H.
    destruct H as (e & Hin & He). apply (Hnone e Hin). by apply joins_sym. }
  right. split; [exact Hne |]. split; [exact Hnone |].
  assert (∃ e, edges s1 = edges s ++ [e] ∧ joins a b e
               ∧ (e = (a, b) ∨ e = (b, a))) as (e & He1 & Hj & Hor).
  { subst s1. destruct flipped; rewrite edges_connect.
    - destruct (decide (b = a)); [done |]. rewrite Hex'.
      exists (b, a). split; [done |]. split; [right; done | by right].
    - destruct (decide (a = b)); [done |]. rewrite Hex.
      exists (a, b). split; [done |]. split; [left; done | by left]. }
  rewrite connect_many_joined.
  - rewrite He1. destruct Hor as [-> | ->]; [by left | by right].
  - exists e. split; [| exact Hj]. rewrite He1.
    apply elem_of_app. right. apply list_elem_of_singleton. reflexivity.
Qed.

Lemma simple_edges_snoc (es : list (ref * ref)) (a b : ref) :
  simple_edges es → a ≠ b → (∀ e, e ∈ es → ¬ joins a b e) →
  simple_edges (es ++ [(a, b)]).
Proof.
  intros [Hloop Hdup] Hne Hnone. split.
  - intros e [Hin | Hin]%elem_of_app; [by apply Hloop |].
    apply list_elem_of_singleton in Hin as ->. exact Hne.
  - intros i j e1 e2 H1 H2 Hj.
    apply lookup_snoc_Some in H1 as [[Hi H1] | [Hi <-]];
      apply lookup_snoc_Some in H2 as [[Hjl H2] | [Hjl <-]].
    + by apply (Hdup i j e1 e2).
    + exfalso. apply (Hnone e1); [by eapply list_elem_of_lookup_2 |].
      unfold joins in *. cbn in Hj. destruct Hj as [[-> ->] | [-> ->]]; tauto.
    + exfalso. apply (Hnone e2); [by eapply list_elem_of_lookup_2 |]. exact Hj.
    + lia.
Qed.

Lemma attemptConnection_simple (tgt : option ref) (env : Env) (s : State) :
  simple_edges (edges s) → simple_edges (edges (attemptConnection tgt env s)).
Proof.
  intros Hsimple.
  destruct (selectedNode s) as [a|] eqn:Hsel; cycle 1.
  { rewrite attemptConnection_rejected; [done | by left]. }
  destruct tgt as [b|]; cycle 1.
  { rewrite attemptConnection_rejected; [done | right; by left]. }
  destruct (decide (a = b)) as [->|Hne].
  { rewrite attemptConnection_rejected; [done | right; right; done]. }
  destruct (attemptConnection_attempted a b env s Hsel Hne) as (_ & _ & ->).
  destruct (existsb _ (edges s)) eqn:Hex; [done |].
  apply simple_edges_snoc; [done | done |].
  intros e Hin He. apply not_true_iff_false in Hex. apply Hex.
  apply existsb_joins. by exists e.
Qed.

(** C4: [connect(a, a)] creates no edge; a connect between a pair already
    joined in either orientation appends nothing; over any run of connect
    calls on one unordered pair the edge array stays as it was or gains
    exactly one entry, so it grows by at most one; and an edge array with
    no self-loop and no doubled pair keeps that shape through every
    connect attempt. *)
Theorem connect_deduplicates (env : Env) (s : State) (a b : ref) :
  edges (connect a a env s) = edges s
  ∧ ((∃ e, e ∈ edges s ∧ joins a b e) → edges (connect a b env s) = edges s)
  ∧ (∀ calls,
       length (edges (connect_many a b calls s)) ≤ S (length (edges s))
       ∧ (edges (connect_many a b calls s) = edges s
          ∨ edges (connect_many a b calls s) = edges s ++ [(a, b)]
          ∨ edges (connect_many a b calls s) = edges s ++ [(b, a)]))
  ∧ (simple_edges (edges s) →
     (∀ tgt, simple_edges (edges (attemptConnection tgt env s)))
     ∧ ∀ calls, simple_edges (edges (connect_many a b calls s))).
Proof.
  split; [| split; [| split]].
  - rewrite edges_connect. by destruct (decide (a = a)).
  - apply edges_connect_joined.
  - intros calls.
    destruct (connect_many_grows a b calls s) as [-> | (_ & _ & [-> | ->])].
    + split; [lia | by left].
    + split; [rewrite length_app; cbn; lia | right; by left].
    + split; [rewrite length_app; cbn; lia | right; by right].
  - intros Hsimple. split; [intros tgt; by apply attemptConnection_simple |].
    intros calls.
    destruct (connect_many_grows a b calls s)
      as [-> | (Hne & Hnone & [-> | ->])]; [done | |].
    + by apply simple_edges_snoc.
    + apply simple_edges_snoc; [done | done |].
      intros e Hin He. apply (Hnone e Hin). by apply joins_sym.
Qed.

Lemma simple_edges_nil : simple_edges [].
Proof.
  split.
  - intros e Hin. by apply elem_of_nil in Hin.
  - intros i j e1 e2 H1. by rewrite lookup_nil in H1.
Qed.

Lemma edges_two_nodes : edges two_nodes = [].
Proof. vm_compute. reflexivity. Qed.

Lemma edges_connected : edges connected = [(0, 1)].
Proof. vm_compute. reflexivity. Qed.

Lemma connect_deduplicates_witness :
  edges (connect 0 0 env0 two_nodes) = edges two_nodes
  ∧ edges (connect 1 0 env0 connected) = edges connected
  ∧ length (edges (connect_many 0 1 [(false, env0); (true, env0)] two_nodes))
    ≤ S (length (edges two_nodes))
  ∧ simple_edges
      (edges (connect_many 0 1 [(false, env0); (true, env0)] two_nodes)).
Proof.
  destruct (connect_deduplicates env0 two_nodes 0 1) as (Hself & _ & Hmany & Hsimple).
  destruct (connect_deduplicates env0 connected 1 0) as (_ & Hdup & _).
  split; [exact Hself |]. split; [| split].
  - apply Hdup. exists (0, 1). split.
    + rewrite edges_connected. apply list_elem_of_singleton. reflexivity.
    + right. split; reflexivity.
  - apply (Hmany [(false, env0); (true, env0)]).
  - apply Hsimple. rewrite edges_two_nodes. exact simple_edges_nil.
Defined.

(** ** The node array stays well formed *)

Lemma wf_frame (s s' : State) :
  nodes s' = nodes s → length (heap s') = length (heap s) → wf s → wf s'.
Proof. unfold wf. intros -> ->. done. Qed.

Lemma wf_if (b : bool) (s1 s2 : State) :
  wf s1 → wf s2 → wf (if b then s1 else s2).
Proof. by destruct b. Qed.

Lemma length_fold_left_store (step : list Node.t → ref → list Node.t)
    (ns : list ref) (h : list Node.t) :
  (∀ h' n, length (step h' n) = length h') →
  length (fold_left step ns h) = length h.
Proof.
  intros Hstep. revert h. induction ns as [|n ns IH]; intros h; [done |].
  cbn. rewrite IH. apply Hstep.
Qed.

Lemma length_updateNodesID_from (i : nat) (ns : list ref) (h : list Node.t) :
  length (updateNodesID_from i ns h) = length h.
Proof.
  revert i h. induction ns as [|n ns IH]; intros i h; [done |].
  cbn. rewrite IH. apply length_alter.
Qed.

Lemma saveState_wf (s : State) : wf s → wf (saveState s).
Proof.
  destruct (saveState_frame s) as (Hh & Hn & _).
  apply wf_frame; [exact Hn | by rewrite Hh].
Qed.

Lemma createNode_wf (s : State) : wf s → wf (createNode s).
Proof.
  intros [Hnd Hlt]. unfold createNode. cbn zeta. apply saveState_wf.
  split; cbn.
  - apply NoDup_app. split; [exact Hnd |]. split; [| apply NoDup_singleton].
    intros n Hn Hin. apply list_elem_of_singleton in Hin.
    specialize (Hlt n Hn). lia.
  - intros n Hin. rewrite length_app. cbn.
    apply elem_of_app in Hin as [Hin | Hin].
    + specialize (Hlt n Hin). lia.
    + apply list_elem_of_singleton in Hin. lia.
Qed.

Lemma splice1_sublist {A} (i : Z) (l : list A) : splice1 i l `sublist_of` l.
Proof. unfold splice1. apply sublist_delete. Qed.

Lemma deleteHovered_wf (s : State) : wf s → wf (deleteHovered s).
Proof.
  intros [Hnd Hlt]. unfold deleteHovered.
  destruct (hoveredNode s) as [h|]; [| done].
  cbn zeta. apply saveState_wf.
  set (ns := splice1 (indexOf (nodes s) (Some h)) (nodes s)).
  assert (ns `sublist_of` nodes s) as Hsub by apply splice1_sublist.
  destruct (bool_decide _); (split; cbn;
    [ by eapply sublist_NoDup
    | intros n Hin; rewrite length_updateNodesID_from;
      apply Hlt; by eapply elem_of_sublist ]).
Qed.

Lemma restoreFromSnapshot_wf (doc : JsonDoc) (s : State) :
  wf s → wf (restoreFromSnapshot doc s).2.
Proof.
  intros Hwf. unfold restoreFromSnapshot. cbn zeta.
  destruct doc as [|[nds|] es]; [done | | done].
  assert (wf (set_nodes (seq (length (heap s)) (length nds))
                (set_heap (heap s ++ map (restore_node (isLabelsAlwaysVisible s)) nds)
                   (set_isConnectingNode false (set_hoveredNode None
                      (set_draggedNode None (set_selectedNode None s)))))))
    as Hnew.
  { split; cbn; [apply NoDup_seq |].
    intros n Hin. apply elem_of_seq in Hin.
    rewrite length_app, length_map. lia. }
  destruct es as [es|]; exact Hnew.
Qed.

Lemma attemptConnection_store (tgt : option ref) (env : Env) (s : State) :
  nodes (attemptConnection tgt env s) = nodes s
  ∧ heap (attemptConnection tgt env s) = heap s.
Proof.
  unfold attemptConnection.
  destruct (selectedNode s) as [a|], tgt as [b|]; try done.
  destruct (decide (a = b)); [done |].
  destruct (existsb _ _); cbn; [done |].
  unfold saveState. destruct (bool_decide _); done.
Qed.

Lemma mousePressed_wf (env : Env) (s : State) : wf s → wf (mousePressed env s).
Proof.
  intros Hwf. unfold mousePressed.
  destruct (outside_canvas env); [done |].
  destruct (decide (mouseButton env = RIGHT)); [by apply deleteHovered_wf |].
  match goal with |- wf (if _ then set_draggedNode _ ?s1 else _) =>
    assert (wf s1) as H1; [| apply wf_if; exact H1] end.
  apply wf_if; [by apply createNode_wf |]. apply wf_if; [done |].
  destruct (attemptConnection_store (hoveredNode s) env s) as [Hn Hh].
  apply (wf_frame s); [exact Hn | by rewrite Hh | exact Hwf].
Qed.

Lemma drawNodes_store (s : State) :
  nodes (drawNodes s) = nodes s
  ∧ length (heap (drawNodes s)) = length (heap s).
Proof.
  split; [done |]. unfold drawNodes. cbn.
  rewrite length_fold_left_store.
  - apply length_fold_left_store. intros h n. unfold force_pass.
    rewrite length_alter. destruct (isAllowOverlap s); [done |].
    unfold Node.applyRepulsion. apply length_alter.
  - intros h n. apply length_alter.
Qed.

Lemma draw_store (env : Env) (s : State) :
  nodes (draw env s) = nodes s
  ∧ length (heap (draw env s)) = length (heap s).
Proof.
  unfold draw. cbn zeta.
  set (s1 := updateHoveredNode (updateWorldBounds env (getCanvasMousePos env s))).
  assert (nodes s1 = nodes s ∧ heap s1 = heap s) as [Hn Hh].
  { subst s1. unfold updateWorldBounds.
    by destruct (isBoundaryStatic (getCanvasMousePos env s)). }
  destruct (drawNodes_store s1) as [Hn1 Hh1].
  change (nodes (drawNodes s1) = nodes s
          ∧ length (heap (drawNodes s1)) = length (heap s)).
  by rewrite Hn1, Hh1, Hn, Hh.
Qed.

Lemma undo_wf (env : Env) (s : State) : wf s → wf (undo env s).2.
Proof.
  intros Hwf. unfold undo. destruct (bool_decide _); [done |].
  destruct (last (undoStack s)); [| done]. cbn zeta.
  destruct (last _); [| done]. by apply restoreFromSnapshot_wf.
Qed.

Lemma redo_wf (env : Env) (s : State) : wf s → wf (redo env s).2.
Proof.
  intros Hwf. unfold redo. destruct (last (redoStack s)); [| done].
  by apply restoreFromSnapshot_wf.
Qed.

Lemma handleFileLoad_wf (file : File) (env : Env) (s : State) :
  wf s → wf (handleFileLoad file env s).
Proof.
  intros Hwf. unfold handleFileLoad. destruct (bool_decide _); [done |].
  destruct (data file) as [doc|]; [| done].
  pose proof (restoreFromSnapshot_wf doc s Hwf) as H.
  destruct (restoreFromSnapshot doc s) as [[|] s1]; exact H.
Qed.

Lemma step_wf (ev : Event) (env : Env) (s : State) : wf s → wf (step ev env s).
Proof.
  intros Hwf. destruct ev; cbn [step]; try exact Hwf.
  - destruct (draw_store env s) as [Hn Hh]. by apply (wf_frame s).
  - by apply mousePressed_wf.
  - (* mouseDragged *)
    unfold mouseDragged. destruct (outside_canvas env); [done |].
    destruct (draggedNode s); [| by destruct (spaceDown env)].
    apply (wf_frame s); [reflexivity | | exact Hwf]. cbn. apply length_alter.
  - unfold mouseReleased. destruct (draggedNode s); [| done].
    by apply saveState_wf.
  - (* windowResized *)
    apply (wf_frame s); [reflexivity | | exact Hwf]. cbn.
    apply length_fold_left_store. intros h n. apply length_alter.
  - unfold handleConnectButton. by destruct (selectedNode s).
  - (* handleLabelButton *)
    apply (wf_frame s); [reflexivity | | exact Hwf]. cbn.
    apply length_fold_left_store. intros h n. apply length_alter.
  - by apply handleFileLoad_wf.
  - unfold connectModeOff. by destruct (isConnectingNode s).
  - unfold connectModeOn, handleConnectButton.
    destruct (negb _); [| done]. by destruct (selectedNode s).
  - by apply undo_wf.
  - by apply redo_wf.
Qed.

Lemma setup_wf : wf setup.
Proof.
  split; cbn.
  - apply NoDup_nil_2.
  - intros n Hin. by apply elem_of_nil in Hin.
Qed.

Lemma reachable_wf (s : State) : reachable s → wf s.
Proof.
  induction 1 as [|ev env s _ IH]; [exact setup_wf | by apply step_wf].
Qed.

(** ** Deleting a node *)

Lemma mousePressed_right (env : Env) (s : State) :
  outside_canvas env = false → mouseButton env = RIGHT →
  mousePressed env s = deleteHovered s.
Proof.
  intros Hin Hbtn. unfold mousePressed. rewrite Hin.
  by destruct (decide (mouseButton env = RIGHT)).
Qed.

Lemma deleteHovered_fields (s : State) (h : ref) :
  hoveredNode s = Some h →
  let ns := splice1 (index_from 0 (nodes s) h) (nodes s) in
  nodes (deleteHovered s) = ns
  ∧ edges (deleteHovered s)
    = filter (λ edge : ref * ref, edge.1 ≠ h ∧ edge.2 ≠ h) (edges s)
  ∧ heap (deleteHovered s) = updateNodesID_from 0 ns (heap s).
Proof.
  intros Hhov. unfold deleteHovered. rewrite Hhov. cbn zeta.
  unfold saveState. cbn zeta.
  destruct (bool_decide (HISTORY_LIMIT < _));
    destruct (bool_decide (indexOf _ _ = _)); done.
Qed.

Lemma index_from_first (i : Z) (l1 l2 : list ref) (h : ref) :
  h ∉ l1 → index_from i (l1 ++ h :: l2) h = (i + Z.of_nat (length l1))%Z.
Proof.
  revert i. induction l1 as [|m l1 IH]; intros i Hnotin; cbn.
  - destruct (decide (h = h)); [lia | done].
  - apply not_elem_of_cons in Hnotin as [Hne Hnotin].
    destruct (decide (m = h)); [congruence |].
    rewrite IH by exact Hnotin. lia.
Qed.

Lemma splice1_first {A} (l1 l2 : list A) (x : A) :
  splice1 (Z.of_nat (length l1)) (l1 ++ x :: l2) = l1 ++ l2.
Proof.
  unfold splice1. rewrite length_app. cbn [length].
  destruct (Z.ltb_spec (Z.of_nat (length l1)) 0) as [Hlt|_]; [lia |].
  rewrite Z.min_l by lia. rewrite Nat2Z.id. apply delete_middle.
Qed.

(** As long as the hovered node is still in the node array (a frame has
    been drawn since the last deletion), a right press takes that node out
    of the array, and an edge present before the deletion is present
    after it if and only if neither of its endpoints is that node (the
    surviving edges keep their order). *)
Theorem delete_removes_exactly_incident_edges (env : Env) (s : State) (h : ref) :
  outside_canvas env = false → mouseButton env = RIGHT →
  hoveredNode s = Some h → h ∈ nodes s →
  (∃ l1 l2, nodes s = l1 ++ h :: l2 ∧ (h ∉ l1)
            ∧ nodes (mousePressed env s) = l1 ++ l2)
  ∧ edges (mousePressed env s)
    = filter (λ e : ref * ref, e.1 ≠ h ∧ e.2 ≠ h) (edges s)
  ∧ (∀ e, e ∈ edges s → (e ∈ edges (mousePressed env s) ↔ e.1 ≠ h ∧ e.2 ≠ h))
  ∧ (∀ e, e ∈ edges (mousePressed env s) → e ∈ edges s).
Proof.
  intros Hin Hbtn Hhov Hmem.
  rewrite (mousePressed_right env s Hin Hbtn).
  destruct (deleteHovered_fields s h Hhov) as (Hn & He & _).
  split; [| split; [exact He | split]].
  - apply list_elem_of_split_l in Hmem as (l1 & l2 & Hsplit & Hfirst).
    exists l1, l2. split; [exact Hsplit |]. split; [exact Hfirst |].
    rewrite Hn, Hsplit. rewrite index_from_first by exact Hfirst.
    rewrite Z.add_0_l. apply splice1_first.
  - intros e Hine. rewrite He, list_elem_of_filter. tauto.
  - intros e Hine. rewrite He in Hine.
    apply list_elem_of_filter in Hine as [_ Hine]. exact Hine.
Qed.

Lemma updateNodesID_from_other (i : nat) (ns : list ref) (h : list Node.t)
    (n : ref) :
  n ∉ ns → updateNodesID_from i ns h !!! n = h !!! n.
Proof.
  revert i h. induction ns as [|m ns IH]; intros i h Hnotin; [done |].
  apply not_elem_of_cons in Hnotin as [Hne Hnotin]. cbn.
  rewrite IH by exact Hnotin. by apply list_lookup_total_alter_ne.
Qed.

Lemma updateNodesID_from_ids (i : nat) (ns : list ref) (h : list Node.t) :
  NoDup ns → (∀ n, n ∈ ns → n < length h) →
  ∀ j n, ns !! j = Some n →
    Node.id (updateNodesID_from i ns h !!! n) = (Z.of_nat (i + j) + 1)%Z.
Proof.
  revert i h. induction ns as [|m ns IH]; intros i h Hnd Hlt j n Hj.
  { by rewrite lookup_nil in Hj. }
  apply NoDup_cons in Hnd as [Hm Hnd]. cbn.
  destruct j as [|j]; cbn in Hj.
  - injection Hj as ->. rewrite updateNodesID_from_other by exact Hm.
    rewrite list_lookup_total_alter_eq by (apply Hlt; left).
    cbn. f_equal. lia.
  - rewrite (IH (S i) _ Hnd) with (j := j); [f_equal; lia | | exact Hj].
    intros k Hk. rewrite length_alter. apply Hlt. by right.
Qed.

(** C3: after a deletion, whatever number N of nodes remains (N = 0
    included), the node at position [i] of the node array has id [i + 1]:
    read in collection order the ids are exactly 1, 2, ..., N. *)
Theorem delete_renumbers_densely (env : Env) (s : State) (h : ref) :
  wf s → outside_canvas env = false → mouseButton env = RIGHT →
  hoveredNode s = Some h →
  (∀ i n, nodes (mousePressed env s) !! i = Some n →
     Node.id (heap (mousePressed env s) !!! n) = (Z.of_nat i + 1)%Z)
  ∧ (λ n, Node.id (heap (mousePressed env s) !!! n)) <$> nodes (mousePressed env s)
    = seqZ 1 (Z.of_nat (length (nodes (mousePressed env s)))).
Proof.
  intros [Hnd Hlt] Hin Hbtn Hhov.
  rewrite (mousePressed_right env s Hin Hbtn).
  destruct (deleteHovered_fields s h Hhov) as (Hn & _ & Hh).
  set (ns := splice1 (index_from 0 (nodes s) h) (nodes s)) in *.
  assert (ns `sublist_of` nodes s) as Hsub by apply splice1_sublist.
  assert (∀ i n, ns !! i = Some n →
            Node.id (updateNodesID_from 0 ns (heap s) !!! n)
            = (Z.of_nat i + 1)%Z) as Hids.
  { intros i n Hi.
    apply (updateNodesID_from_ids 0 ns (heap s)); [| | exact Hi].
    - by eapply sublist_NoDup.
    - intros k Hk. apply Hlt. by eapply elem_of_sublist. }
  rewrite Hn, Hh. split; [exact Hids |].
  apply list_eq. intros i. rewrite list_lookup_fmap.
  destruct (ns !! i) as [n|] eqn:Hi; cbn.
  - rewrite (Hids i n Hi). symmetry. apply lookup_seqZ.
    apply lookup_lt_Some in Hi. lia.
  - symmetry. apply lookup_seqZ_ge. apply lookup_ge_None in Hi. lia.
Qed.

Lemma nodes_hovering : nodes hovering = [0; 1].
Proof. vm_compute. reflexivity. Qed.

Lemma hovering_wf : wf hovering.
Proof.
  apply (wf_frame connecting).
  - apply attemptConnection_store.
  - change (length (heap (attemptConnection (Some 1) env0 connecting))
            = length (heap connecting)).
    by destruct (attemptConnection_store (Some 1) env0 connecting) as [_ ->].
  - change (wf (createNode (set_canvasX 200 one_node))). apply createNode_wf.
    change (wf (createNode (set_canvasY 100 (set_canvasX 100 setup)))).
    apply createNode_wf. exact setup_wf.
Qed.

Lemma delete_removes_exactly_incident_edges_witness :
  (∃ l1 l2, nodes hovering = l1 ++ 0 :: l2 ∧ (0 ∉ l1)
            ∧ nodes (mousePressed env_right hovering) = l1 ++ l2)
  ∧ edges (mousePressed env_right hovering)
    = filter (λ e : ref * ref, e.1 ≠ 0 ∧ e.2 ≠ 0) (edges hovering)
  ∧ (∀ e, e ∈ edges hovering →
       (e ∈ edges (mousePressed env_right hovering) ↔ e.1 ≠ 0 ∧ e.2 ≠ 0))
  ∧ (∀ e, e ∈ edges (mousePressed env_right hovering) → e ∈ edges hovering).
Proof.
  apply (delete_removes_exactly_incident_edges env_right hovering 0).
  - exact outside_canvas_env_right.
  - reflexivity.
  - reflexivity.
  - rewrite nodes_hovering. apply list_elem_of_here.
Defined.

Lemma delete_renumbers_densely_witness :
  (∀ i n, nodes (mousePressed env_right hovering) !! i = Some n →
     Node.id (heap (mousePressed env_right hovering) !!! n) = (Z.of_nat i + 1)%Z)
  ∧ (λ n, Node.id (heap (mousePressed env_right hovering) !!! n))
      <$> nodes (mousePressed env_right hovering)
    = seqZ 1 (Z.of_nat (length (nodes (mousePressed env_right hovering)))).
Proof.
  apply (delete_renumbers_densely env_right hovering 0).
  - exact hovering_wf.
  - exact outside_canvas_env_right.
  - reflexivity.
  - reflexivity.
Defined.

(** The scenario of the specification, run on the code: after deleting the
    first of two connected nodes, the node that had id 2 is the only one
    left and now has id 1, and no edge remains. *)
Example delete_first_of_two :
  nodes (mousePressed env_right hovering) = [1]
  ∧ Node.id (heap (mousePressed env_right hovering) !!! 1) = 1%Z
  ∧ Node.id (heap hovering !!! 1) = 2%Z
  ∧ edges (mousePressed env_right hovering) = [].
Proof.
  rewrite (mousePressed_right env_right hovering outside_canvas_env_right eq_refl).
  vm_compute. done.
Qed.

(** ** Deleting twice within one frame *)

(** The deletion does not reset [hoveredNode]: until the next frame it
    keeps pointing at the node just removed. *)
Lemma deleteHovered_hoveredNode (s : State) :
  hoveredNode (deleteHovered s) = hoveredNode s.
Proof.
  unfold deleteHovered.
  destruct (hoveredNode s) as [h|] eqn:Hhov; [| exact Hhov].
  cbn zeta. unfold saveState. cbn zeta.
  destruct (bool_decide (HISTORY_LIMIT < _));
    destruct (bool_decide (indexOf _ _ = _)); exact Hhov.
Qed.

(** A frame leaves the edges alone and sets [hoveredNode] to the first
    node under the pointer, tested against the store of the start of the
    frame. *)
Lemma draw_scene (env : Env) (s : State) :
  edges (draw env s) = edges s
  ∧ hoveredNode (draw env s)
    = List.find
        (λ n : ref,
           Node.isHovered (screenToWorld (mouseX env) (mouseY env) s).1
                          (screenToWorld (mouseX env) (mouseY env) s).2
                          (heap s !!! n))
        (nodes s).
Proof.
  unfold draw, updateWorldBounds. cbn zeta.
  by destruct (isBoundaryStatic (getCanvasMousePos env s)).
Qed.

Lemma loaded_scene :
  nodes loaded = [0; 1; 2] ∧ edges loaded = [(1, 2)]
  ∧ Node.x (heap loaded !!! (0 : ref)) = 100%R
  ∧ Node.y (heap loaded !!! (0 : ref)) = 100%R
  ∧ Node.r (heap loaded !!! (0 : ref)) = 20%R
  ∧ zoom loaded = 1%R ∧ offsetX loaded = 0%R ∧ offsetY loaded = 0%R.
Proof. vm_compute. done. Qed.

Lemma pointing_scene :
  nodes pointing = [0; 1; 2] ∧ edges pointing = [(1, 2)]
  ∧ hoveredNode pointing = Some 0.
Proof.
  destruct loaded_scene as (Hn & He & Hx & Hy & Hr & Hz & Hox & Hoy).
  unfold pointing. cbn [step].
  destruct (draw_store env0 loaded) as [Hn' _].
  destruct (draw_scene env0 loaded) as [He' Hh'].
  rewrite Hn', He', Hh', Hn, He. split; [done |]. split; [done |].
  cbn [List.find].
  assert (Node.isHovered (screenToWorld (mouseX env0) (mouseY env0) loaded).1
                         (screenToWorld (mouseX env0) (mouseY env0) loaded).2
                         (heap loaded !!! (0 : ref)) = true) as ->; [| done].
  unfold Node.isHovered, dist, screenToWorld. cbn [fst snd mouseX mouseY env0].
  rewrite Hx, Hy, Hr, Hz, Hox, Hoy. apply Rltb_true.
  replace ((((100 - 0) / 1 - 100) * ((100 - 0) / 1 - 100)
            + ((100 - 0) / 1 - 100) * ((100 - 0) / 1 - 100))%R) with 0%R
    by lra.
  rewrite sqrt_0. lra.
Qed.

Lemma deleted_once_scene :
  nodes deleted_once = [1; 2] ∧ edges deleted_once = [(1, 2)]
  ∧ hoveredNode deleted_once = Some 0.
Proof.
  destruct pointing_scene as (Hn & He & Hh).
  change deleted_once with (mousePressed env_right pointing).
  rewrite (mousePressed_right env_right pointing outside_canvas_env_right eq_refl).
  destruct (deleteHovered_fields pointing 0 Hh) as (Hn' & He' & _).
  rewrite Hn', He', deleteHovered_hoveredNode, Hn, He. by vm_compute.
Qed.

(** C7: the claim fails for a second right press that arrives before the
    next frame.  A saved graph of three nodes, the second joined to the
    third, is loaded and a frame is drawn with the pointer on the first
    node.  The first right press removes the first node and leaves
    [hoveredNode] on it.  At the second press that node is no longer in
    the node array, so [indexOf] answers -1 and [splice(-1, 1)] removes
    the last node of the array, the third of the file; the edge filter
    still compares with the first node, and the edge from the second node
    to the third stays in the edge list although one of its endpoints has
    just been deleted. *)
Theorem delete_with_stale_hover_keeps_edge :
  reachable deleted_twice
  ∧ (nodes pointing = [0; 1; 2] ∧ edges pointing = [(1, 2)]
     ∧ hoveredNode pointing = Some 0)
  ∧ (nodes deleted_once = [1; 2] ∧ edges deleted_once = [(1, 2)]
     ∧ hoveredNode deleted_once = Some 0)
  ∧ (nodes deleted_twice = [1] ∧ edges deleted_twice = [(1, 2)])
  ∧ (2 ∈ nodes deleted_once ∧ (2 ∉ nodes deleted_twice)
     ∧ (1, 2) ∈ edges deleted_twice).
Proof.
  split.
  { unfold deleted_twice, deleted_once, pointing, loaded.
    do 4 apply reach_step. apply reach_setup. }
  split; [exact pointing_scene |]. split; [exact deleted_once_scene |].
  destruct deleted_once_scene as (Hn & He & Hh).
  assert (nodes deleted_twice = [1] ∧ edges deleted_twice = [(1, 2)])
    as [Hn2 He2].
  { change deleted_twice with (mousePressed env_right deleted_once).
    rewrite (mousePressed_right env_right deleted_once
               outside_canvas_env_right eq_refl).
    destruct (deleteHovered_fields deleted_once 0 Hh) as (Hn' & He' & _).
    rewrite Hn', He', Hn, He. by vm_compute. }
  split; [done |]. rewrite Hn, Hn2, He2.
  split; [apply list_elem_of_further, list_elem_of_here |].
  split; [| apply list_elem_of_here].
  intros Hin%list_elem_of_singleton. discriminate Hin.
Qed.

(** ** One physics frame *)

Section Frame.
Local Open Scope R_scope.

Lemma same_geometry_refl (h : list Node.t) : same_geometry h h.
Proof. intros k. done. Qed.

Lemma same_geometry_alter (f : Node.t → Node.t) (h0 h : list Node.t) (n : ref) :
  (∀ nd, Node.x (f nd) = Node.x nd ∧ Node.y (f nd) = Node.y nd
         ∧ Node.r (f nd) = Node.r nd) →
  same_geometry h0 h → same_geometry h0 (alter f n h).
Proof.
  intros Hf Hsame k. rewrite list_lookup_total_alter.
  case_decide as Hk; [| apply Hsame]. destruct Hk as [-> _].
  destruct (Hf (h !!! k)) as (-> & -> & ->). apply Hsame.
Qed.

Lemma repel_geometry (this : ref) (me me' : Node.t) (acc : R * R)
    (oref : ref) (o o' : Node.t) :
  Node.x me = Node.x me' → Node.y me = Node.y me' → Node.r me = Node.r me' →
  Node.x o = Node.x o' → Node.y o = Node.y o' →
  Node.repel this me acc oref o = Node.repel this me' acc oref o'.
Proof. intros H1 H2 H3 H4 H5. unfold Node.repel. by rewrite H1, H2, H3, H4, H5. Qed.

Lemma repulsion_geometry (h h' : list Node.t) (others : list ref) (this : ref) :
  same_geometry h h' →
  Node.repulsion h others this = Node.repulsion h' others this.
Proof.
  intros Hsame. unfold Node.repulsion. generalize (0, 0).
  induction others as [|o others IH]; intros acc; [done |].
  cbn [fold_left]. rewrite IH. f_equal.
  destruct (Hsame this) as (? & ? & ?), (Hsame o) as (? & ? & _).
  by apply repel_geometry.
Qed.

(** Altering each listed object once, with a function that may depend
    on the address: listed objects get the function, the rest stay. *)
Lemma fold_alter_lookup (f : ref → Node.t → Node.t) (todo : list ref)
    (h : list Node.t) (n : ref) :
  NoDup todo → (∀ k, k ∈ todo → (k < length h)%nat) →
  fold_left (λ h' k, alter (f k) k h') todo h !!! n
  = if decide (n ∈ todo) then f n (h !!! n) else h !!! n.
Proof.
  revert h. induction todo as [|m todo IH]; intros h Hnd Hlt.
  { cbn. destruct (decide (n ∈ [])) as [Hin|_]; [| done].
    by apply elem_of_nil in Hin. }
  apply NoDup_cons in Hnd as [Hm Hnd]. cbn [fold_left].
  rewrite IH; [| exact Hnd |
    intros k Hk; rewrite length_alter; apply Hlt; by right].
  destruct (decide (n = m)) as [->|Hne].
  - rewrite decide_False by exact Hm.
    rewrite decide_True by left.
    apply list_lookup_total_alter_eq, Hlt. left.
  - rewrite list_lookup_total_alter_ne by done.
    destruct (decide (n ∈ todo)) as [Hin|Hnin].
    + rewrite decide_True by (by right). done.
    + rewrite decide_False; [done |].
      intros [?|?]%elem_of_cons; done.
Qed.

(** One step of the first loop, when positions are those of the start
    of the frame. *)
Lemma force_pass_alter (overlap : bool) (wb : Bounds.t) (ns : list ref)
    (h0 h : list Node.t) (n : ref) :
  same_geometry h0 h →
  force_pass overlap wb ns h n
  = alter (λ me, Node.applyBoundary wb
                   (if overlap then me
                    else Node.repulse (Node.repulsion h0 ns n) me)) n h.
Proof.
  intros Hsame. unfold force_pass. destruct overlap; [done |].
  unfold Node.applyRepulsion. rewrite list_alter_alter_eq.
  by rewrite (repulsion_geometry h0 h).
Qed.

Lemma force_pass_fold (overlap : bool) (wb : Bounds.t) (ns todo : list ref)
    (h0 h : list Node.t) :
  same_geometry h0 h →
  fold_left (force_pass overlap wb ns) todo h
  = fold_left
      (λ h' k, alter (λ me, Node.applyBoundary wb
                               (if overlap then me
                                else Node.repulse (Node.repulsion h0 ns k) me))
                     k h') todo h.
Proof.
  revert h. induction todo as [|m todo IH]; intros h Hsame; [done |].
  cbn [fold_left]. rewrite (force_pass_alter overlap wb ns h0 h m Hsame).
  apply IH. apply same_geometry_alter; [| exact Hsame].
  intros nd. by destruct overlap.
Qed.

Lemma drawNodes_lookup (s : State) (n : ref) :
  wf s → n ∈ nodes s →
  heap (drawNodes s) !!! n
  = frame_of_node (isAllowOverlap s) (worldBounds s) (heap s) (nodes s) n
                  (heap s !!! n).
Proof.
  intros [Hnd Hlt] Hin. unfold drawNodes. cbn [heap set_heap].
  rewrite (force_pass_fold _ _ _ _ (heap s) (heap s)) by apply same_geometry_refl.
  unfold update_pass.
  rewrite (fold_alter_lookup (λ _, Node.update)); [| exact Hnd |].
  - rewrite decide_True by exact Hin.
    rewrite fold_alter_lookup by done.
    rewrite decide_True by exact Hin. reflexivity.
  - intros k Hk. rewrite length_fold_left_store; [by apply Hlt |].
    intros h' k'. apply length_alter.
Qed.

(** C1, as the code has it: in a frame, for every node of the
    collection, the repulsion force is added to the velocity and the
    velocity is clamped to [[-5, 5]] on both axes at that point, inside
    [applyRepulsion] (a step skipped, clamp included, when overlap is
    allowed); the boundary push is then added; [update] then adds the
    spring term, applies friction once, and advances the position by
    the resulting velocity.  Nothing clamps the velocity after the
    boundary push, the spring term or friction. *)
Theorem drawNodes_clamps_inside_repulsion (s : State) (n : ref) :
  wf s → n ∈ nodes s →
  let me := heap s !!! n in
  let f := Node.repulsion (heap s) (nodes s) n in
  let repelled :=
    if isAllowOverlap s then me
    else Node.with_vel (constrain (Node.vx me + f.1) (-5) 5)
                       (constrain (Node.vy me + f.2) (-5) 5) me in
  let bounded := Node.applyBoundary (worldBounds s) repelled in
  let me' := heap (drawNodes s) !!! n in
  Node.vx me'
  = (Node.vx bounded + (Node.tx me - Node.x me) * Node.speed me)
    * Node.friction me
  ∧ Node.vy me'
    = (Node.vy bounded + (Node.ty me - Node.y me) * Node.speed me)
      * Node.friction me
  ∧ Node.x me' = Node.x me + Node.vx me'
  ∧ Node.y me' = Node.y me + Node.vy me'.
Proof.
  intros Hwf Hin me f repelled bounded me'.
  subst me'. rewrite (drawNodes_lookup s n Hwf Hin).
  unfold frame_of_node. fold me. fold f.
  subst bounded repelled. destruct (isAllowOverlap s); repeat split.
Qed.

Lemma dragging_eq :
  dragging
  = set_heap (alter (Node.with_target 200 100) 0%nat (heap one_node))
      (set_canvasX 200
         (set_draggedNode (Some 0%nat) (updateWorldBounds env0 one_node))).
Proof.
  unfold dragging, mouseDragged. rewrite outside_canvas_env0. reflexivity.
Qed.

Lemma dragging_fields :
  heap dragging = [lone] ∧ nodes dragging = [0%nat]
  ∧ isAllowOverlap dragging = false
  ∧ worldBounds dragging
    = Bounds.mk ((0 - 0) / 1) ((800 - 0) / 1) ((0 - 0) / 1) ((600 - 0) / 1).
Proof. rewrite dragging_eq. repeat split. Qed.

Lemma dragging_wf : wf dragging.
Proof.
  destruct dragging_fields as (Hh & Hn & _). unfold wf. rewrite Hh, Hn. split.
  - apply NoDup_singleton.
  - intros k Hk. apply list_elem_of_singleton in Hk as ->. cbn. lia.
Qed.

Lemma dragging_has_node : 0%nat ∈ nodes dragging.
Proof.
  destruct dragging_fields as (_ & -> & _). apply list_elem_of_here.
Qed.

Lemma drawNodes_clamps_inside_repulsion_witness :
  let me := heap dragging !!! (0%nat : ref) in
  let f := Node.repulsion (heap dragging) (nodes dragging) (0%nat : ref) in
  let repelled :=
    if isAllowOverlap dragging then me
    else Node.with_vel (constrain (Node.vx me + f.1) (-5) 5)
                       (constrain (Node.vy me + f.2) (-5) 5) me in
  let bounded := Node.applyBoundary (worldBounds dragging) repelled in
  let me' := heap (drawNodes dragging) !!! (0%nat : ref) in
  Node.vx me'
  = (Node.vx bounded + (Node.tx me - Node.x me) * Node.speed me)
    * Node.friction me
  ∧ Node.vy me'
    = (Node.vy bounded + (Node.ty me - Node.y me) * Node.speed me)
      * Node.friction me
  ∧ Node.x me' = Node.x me + Node.vx me'
  ∧ Node.y me' = Node.y me + Node.vy me'.
Proof.
  apply (drawNodes_clamps_inside_repulsion dragging (0%nat : ref)).
  - exact dragging_wf.
  - exact dragging_has_node.
Defined.

(** The lone node of [dragging] is inside the world rectangle: the
    boundary step leaves its velocity alone. *)
Lemma applyBoundary_lone (v w : R) :
  Node.applyBoundary
    (Bounds.mk ((0 - 0) / 1) ((800 - 0) / 1) ((0 - 0) / 1) ((600 - 0) / 1))
    (Node.with_vel v w lone)
  = Node.with_vel v w lone.
Proof.
  unfold Node.applyBoundary. cbn.
  rewrite !Rltb_false, !Rgtb_false by lra. reflexivity.
Qed.

Lemma drawNodes_dragging :
  heap (drawNodes dragging) !!! (0%nat : ref)
  = Node.update (Node.with_vel (constrain (0 + 0) (-5) 5)
                               (constrain (0 + 0) (-5) 5) lone).
Proof.
  rewrite (drawNodes_lookup dragging (0%nat : ref) dragging_wf dragging_has_node).
  destruct dragging_fields as (-> & -> & -> & ->).
  unfold frame_of_node, Node.repulsion.
  cbn [fold_left lookup_total list_lookup_total].
  unfold Node.repel. rewrite decide_True by done.
  unfold Node.repulse. cbn [fst snd]. by rewrite applyBoundary_lone.
Qed.

Lemma claimed_frame_dragging :
  claimed_frame dragging (0%nat : ref)
  = Node.with_pos
      (100 + constrain ((0 + 0 + (200 - 100) * 0.1) * 0.8) (-5) 5)
      (100 + constrain ((0 + 0 + (100 - 100) * 0.1) * 0.8) (-5) 5)
      (Node.with_vel (constrain ((0 + 0 + (200 - 100) * 0.1) * 0.8) (-5) 5)
                     (constrain ((0 + 0 + (100 - 100) * 0.1) * 0.8) (-5) 5)
                     lone).
Proof.
  unfold claimed_frame.
  destruct dragging_fields as (-> & -> & -> & ->).
  unfold Node.repulsion. cbn [fold_left lookup_total list_lookup_total].
  unfold Node.repel. rewrite decide_True by done. cbn [fst snd].
  change (Node.vx lone) with 0. change (Node.vy lone) with 0.
  rewrite applyBoundary_lone. reflexivity.
Qed.

(** C1 as worded fails on the code: the lone node of [dragging] leaves
    the frame with horizontal velocity 8, outside [[-5, 5]], and has
    moved by 8; with friction and clamp applied once after the
    accumulation, as worded, it would have velocity 5 and move by 5. *)
Lemma drawNodes_velocity_not_clamped :
  Node.vx (heap (drawNodes dragging) !!! (0%nat : ref)) = 8
  ∧ Node.x (heap (drawNodes dragging) !!! (0%nat : ref)) = 108
  ∧ ¬ (-5 <= Node.vx (heap (drawNodes dragging) !!! (0%nat : ref)) <= 5)
  ∧ Node.vx (claimed_frame dragging (0%nat : ref)) = 5
  ∧ Node.x (claimed_frame dragging (0%nat : ref)) = 105
  ∧ heap (drawNodes dragging) !!! (0%nat : ref) ≠ claimed_frame dragging (0%nat : ref).
Proof.
  assert (Node.vx (heap (drawNodes dragging) !!! (0%nat : ref)) = 8) as Hv.
  { rewrite drawNodes_dragging. cbn.
    rewrite constrain_inside by lra. lra. }
  assert (Node.x (heap (drawNodes dragging) !!! (0%nat : ref)) = 108) as Hx.
  { rewrite drawNodes_dragging. cbn.
    rewrite constrain_inside by lra. lra. }
  assert (Node.vx (claimed_frame dragging (0%nat : ref)) = 5) as Hcv.
  { rewrite claimed_frame_dragging. cbn.
    apply constrain_above; lra. }
  assert (Node.x (claimed_frame dragging (0%nat : ref)) = 105) as Hcx.
  { rewrite claimed_frame_dragging. cbn.
    rewrite constrain_above by lra. lra. }
  split; [exact Hv |]. split; [exact Hx |]. split; [rewrite Hv; lra |].
  split; [exact Hcv |]. split; [exact Hcx |].
  intros Heq. rewrite Heq, Hcv in Hv. lra.
Qed.
End Frame.

(** ** Loading a file *)

(** A file of another type, or text that [JSON.parse] rejects, only adds
    a toast: the scene is untouched. *)
Lemma handleFileLoad_rejected (file : File) (env : Env) (s : State) :
  type file ≠ "application" ∨ subtype file ≠ "json" ∨ data file = None →
  ∃ m, (m = MsgNotJson ∨ m = MsgParseError)
       ∧ handleFileLoad file env s = createToast m env s.
Proof.
  intros H. unfold handleFileLoad.
  destruct (bool_decide (type file ≠ "application" ∨ subtype file ≠ "json"))
    eqn:Hty.
  - exists MsgNotJson. split; [by left | done].
  - apply bool_decide_eq_false in Hty.
    destruct H as [H | [H | H]]; [tauto | tauto |].
    rewrite H. exists MsgParseError. split; [by right | done].
Qed.

(** A parsed document with a [nodes] array but no [edges]: the [catch]
    toast is added to a scene whose nodes were already replaced and whose
    selection was already cleared, while the old edges and the history
    stay. *)
Lemma handleFileLoad_without_edges (nds : list NodeData) (env : Env) (s : State) :
  let s' := handleFileLoad
              (mkFile "application" "json" (Some (JObject (Some nds) None)))
              env s in
  nodes s' = seq (length (heap s)) (length nds)
  ∧ edges s' = edges s
  ∧ selectedNode s' = None ∧ hoveredNode s' = None ∧ draggedNode s' = None
  ∧ isConnectingNode s' = false
  ∧ undoStack s' = undoStack s ∧ redoStack s' = redoStack s
  ∧ toasts s' = toasts s ++ [mkToast MsgParseError (millis env) 3000].
Proof. cbn. repeat split. Qed.

(** C2 fails on the code.  Loading the document [{ nodes: [] }] (it
    parses, but has no [edges]) over the two-node, one-edge scene
    [editing] ends in the error toast, yet the scene is not as it was:
    the node array is now empty, selection and hover are cleared, and the
    edge array still holds the edge between the two removed nodes. *)
Theorem handleFileLoad_invalid_mutates_scene :
  (nodes editing = [0; 1] ∧ edges editing = [(0, 1)]
   ∧ selectedNode editing = Some 1 ∧ hoveredNode editing = Some 0)
  ∧ toasts (handleFileLoad file_without_edges env0 editing)
    = toasts editing ++ [mkToast MsgParseError 0 3000]
  ∧ nodes (handleFileLoad file_without_edges env0 editing) = []
  ∧ edges (handleFileLoad file_without_edges env0 editing) = [(0, 1)]
  ∧ selectedNode (handleFileLoad file_without_edges env0 editing) = None
  ∧ hoveredNode (handleFileLoad file_without_edges env0 editing) = None
  ∧ undoStack (handleFileLoad file_without_edges env0 editing)
    = undoStack editing
  ∧ handleFileLoad file_without_edges env0 editing
    ≠ createToast MsgParseError env0 editing.
Proof.
  destruct (handleFileLoad_without_edges [] env0 editing)
    as (Hn & He & Hs & Hh & _ & _ & Hu & _ & Ht).
  fold file_without_edges in Hn, He, Hs, Hh, Hu, Ht.
  assert (nodes editing = [0; 1]) as Hn0 by exact nodes_hovering.
  assert (edges editing = [(0, 1)]) as He0 by exact edges_connected.
  split; [by repeat split |].
  split; [exact Ht |]. split; [exact Hn |].
  split; [by rewrite He |]. split; [exact Hs |]. split; [exact Hh |].
  split; [exact Hu |].
  intros Heq.
  assert (nodes (handleFileLoad file_without_edges env0 editing) = nodes editing)
    as Hsame by (rewrite Heq; reflexivity).
  rewrite Hn, Hn0 in Hsame. discriminate.
Qed.

(** ** What a running sketch guarantees

    The hypotheses used above hold while the sketch runs: the zoom of
    every state reachable from [setup] lies in [[MIN_ZOOM, MAX_ZOOM]], and
    each frame leaves [hoveredNode] either empty or on a node of the
    collection. *)

Lemma zoom_restoreFromSnapshot (doc : JsonDoc) (s : State) :
  zoom (restoreFromSnapshot doc s).2 = zoom s.
Proof. unfold restoreFromSnapshot. by repeat case_match. Qed.

Lemma zoom_mousePressed (env : Env) (s : State) :
  zoom (mousePressed env s) = zoom s.
Proof.
  unfold mousePressed, deleteHovered, createNode, attemptConnection, saveState.
  cbn zeta. by repeat case_match.
Qed.

Lemma zoom_undo (env : Env) (s : State) : zoom (undo env s).2 = zoom s.
Proof.
  unfold undo. repeat case_match; try reflexivity; apply zoom_restoreFromSnapshot.
Qed.

Lemma zoom_redo (env : Env) (s : State) : zoom (redo env s).2 = zoom s.
Proof.
  unfold redo. repeat case_match; try reflexivity; apply zoom_restoreFromSnapshot.
Qed.

Lemma zoom_handleFileLoad (file : File) (env : Env) (s : State) :
  zoom (handleFileLoad file env s) = zoom s
  ∨ zoom (handleFileLoad file env s) = 1%R.
Proof.
  unfold handleFileLoad. repeat case_match; try (by left); [by right |].
  left. match goal with H : restoreFromSnapshot ?d s = _ |- _ =>
    pose proof (zoom_restoreFromSnapshot d s) as Hz; rewrite H in Hz end.
  exact Hz.
Qed.

Lemma zoom_step (ev : Event) (env : Env) (s : State) :
  zoom (step ev env s) = zoom s
  ∨ (MIN_ZOOM <= zoom (step ev env s) <= MAX_ZOOM)%R.
Proof.
  assert (MIN_ZOOM <= 1 <= MAX_ZOOM)%R as Hone
    by (unfold MIN_ZOOM, MAX_ZOOM; lra).
  destruct ev; cbn [step].
  - left. unfold draw, updateWorldBounds. cbn zeta. by case_match.
  - left. apply zoom_mousePressed.
  - left. unfold mouseDragged. by repeat case_match.
  - left. unfold mouseReleased, saveState. by repeat case_match.
  - right. apply applyZoom_in_range.
  - by left.
  - left. unfold handleConnectButton. by case_match.
  - by left.
  - by left.
  - by left.
  - by left.
  - right. apply applyZoom_in_range.
  - by left.
  - destruct (zoom_handleFileLoad file env s) as [H | ->]; [by left | by right].
  - left. unfold connectModeOff. by case_match.
  - left. unfold connectModeOn, handleConnectButton. by repeat case_match.
  - right. apply applyZoom_in_range.
  - right. apply applyZoom_in_range.
  - by right.
  - left. apply zoom_undo.
  - left. apply zoom_redo.
Qed.

Lemma reachable_zoom_in_range (s : State) :
  reachable s → (MIN_ZOOM <= zoom s <= MAX_ZOOM)%R.
Proof.
  induction 1 as [|ev env s _ IH].
  - change (zoom setup) with 1%R. unfold MIN_ZOOM, MAX_ZOOM. lra.
  - destruct (zoom_step ev env s) as [-> | H]; [exact IH | exact H].
Qed.

Lemma updateHoveredNode_member (s : State) (h : ref) :
  hoveredNode (updateHoveredNode s) = Some h → h ∈ nodes s.
Proof.
  cbn. intros H. apply find_some in H as [H _]. by apply list_elem_of_In.
Qed.

Lemma draw_hovered_member (env : Env) (s : State) (h : ref) :
  hoveredNode (draw env s) = Some h → h ∈ nodes (draw env s).
Proof.
  destruct (draw_store env s) as [-> _]. unfold draw. cbn zeta. intros H.
  apply updateHoveredNode_member in H.
  unfold updateWorldBounds in H. by destruct (isBoundaryStatic _).
Qed.

(** * Further properties of the code *)

(** ** History *)

(** The handlers that leave both history stacks alone. *)
Lemma restoreFromSnapshot_stacks (doc : JsonDoc) (s : State) :
  undoStack (restoreFromSnapshot doc s).2 = undoStack s
  ∧ redoStack (restoreFromSnapshot doc s).2 = redoStack s.
Proof. unfold restoreFromSnapshot. by repeat case_match. Qed.


Lemma saveState_stacks (s : State) :
  redoStack (saveState s) = []
  ∧ undoStack (saveState s)
    = if bool_decide (HISTORY_LIMIT < S (length (undoStack s)))
      then tail (undoStack s ++ [createSnapshot s])
      else undoStack s ++ [createSnapshot s].
Proof.
  unfold saveState. cbn zeta. cbn [undoStack set_undoStack set_redoStack].
  rewrite length_app, Nat.add_1_r.
  by destruct (bool_decide _).
Qed.

Lemma saveState_bounded (s : State) :
  length (undoStack s) ≤ HISTORY_LIMIT → history_bounded (saveState s).
Proof.
  intros Hlen. destruct (saveState_stacks s) as [Hr Hu].
  unfold history_bounded. rewrite Hr, Hu. unfold HISTORY_LIMIT in *.
  case_bool_decide as Hfull; cbn [length].
  - destruct (undoStack s) as [|p u]; cbn in *; [lia |].
    rewrite length_app. cbn. lia.
  - rewrite length_app. cbn. lia.
Qed.

Lemma history_bounded_frame (s s' : State) :
  undoStack s' = undoStack s → redoStack s' = redoStack s →
  history_bounded s → history_bounded s'.
Proof. unfold history_bounded. by intros -> ->. Qed.

Lemma history_bounded_if (b : bool) (s1 s2 : State) :
  history_bounded s1 → history_bounded s2 →
  history_bounded (if b then s1 else s2).
Proof. by destruct b. Qed.

Lemma history_bounded_le (s : State) :
  history_bounded s → length (undoStack s) ≤ HISTORY_LIMIT.
Proof. unfold history_bounded. lia. Qed.

Lemma deleteHovered_history (s : State) :
  history_bounded s → history_bounded (deleteHovered s).
Proof.
  intros Hb. unfold deleteHovered. destruct (hoveredNode s); [| done].
  cbn zeta. apply saveState_bounded.
  destruct (bool_decide _); by apply history_bounded_le.
Qed.

Lemma createNode_history (s : State) :
  history_bounded s → history_bounded (createNode s).
Proof.
  intros Hb. unfold createNode. cbn zeta. apply saveState_bounded.
  by apply history_bounded_le.
Qed.

Lemma attemptConnection_history (tgt : option ref) (env : Env) (s : State) :
  history_bounded s → history_bounded (attemptConnection tgt env s).
Proof.
  intros Hb. unfold attemptConnection.
  destruct (selectedNode s) as [a|], tgt as [b|]; try done.
  destruct (decide (a = b)); [done |].
  destruct (existsb _ _); cbn [negb]; cbn zeta; [done |].
  apply (history_bounded_frame (saveState (set_edges (edges s ++ [(a, b)]) s)));
    [done | done |].
  apply saveState_bounded. by apply history_bounded_le.
Qed.

Lemma mousePressed_history (env : Env) (s : State) :
  history_bounded s → history_bounded (mousePressed env s).
Proof.
  intros Hb. unfold mousePressed.
  destruct (outside_canvas env); [done |].
  destruct (decide (mouseButton env = RIGHT)); [by apply deleteHovered_history |].
  match goal with |- history_bounded (if _ then set_draggedNode _ ?s1 else _) =>
    assert (history_bounded s1) as H1;
      [| apply history_bounded_if; exact H1] end.
  apply history_bounded_if; [by apply createNode_history |].
  apply history_bounded_if; [done | by apply attemptConnection_history].
Qed.

Lemma undo_history (env : Env) (s : State) :
  history_bounded s → history_bounded (undo env s).2.
Proof.
  intros [H1 H2]. unfold undo. case_bool_decide as Hdepth; [by split |].
  destruct (last (undoStack s)) as [p|] eqn:Hlast; [| by split].
  apply last_Some in Hlast as [u Hu]. cbn zeta.
  cbn [undoStack set_undoStack set_redoStack redoStack].
  rewrite Hu, removelast_last.
  rewrite Hu, length_app in Hdepth, H2. cbn in Hdepth, H2.
  destruct (last u) as [q|] eqn:Hq;
    [| apply last_None in Hq; subst u; cbn in *; lia].
  destruct (restoreFromSnapshot_stacks (doc_of_snapshot q)
              (set_redoStack (redoStack s ++ [p]) (set_undoStack u s)))
    as [Hu' Hr'].
  unfold history_bounded. rewrite Hu', Hr'. cbn. rewrite length_app. cbn. lia.
Qed.

Lemma redo_history (env : Env) (s : State) :
  history_bounded s → history_bounded (redo env s).2.
Proof.
  intros [H1 H2]. unfold redo.
  destruct (last (redoStack s)) as [p|] eqn:Hlast; [| by split].
  apply last_Some in Hlast as [r Hr]. cbn zeta.
  destruct (restoreFromSnapshot_stacks (doc_of_snapshot p)
              (set_undoStack (undoStack s ++ [p])
                 (set_redoStack (removelast (redoStack s)) s)))
    as [Hu' Hr'].
  unfold history_bounded.
  cbn [undoStack set_undoStack set_redoStack redoStack].
  rewrite Hu', Hr'. cbn. rewrite Hr, removelast_last.
  rewrite Hr in H2. rewrite !length_app in *. cbn in *. lia.
Qed.

Lemma handleFileLoad_history (file : File) (env : Env) (s : State) :
  history_bounded s → history_bounded (handleFileLoad file env s).
Proof.
  intros Hb. unfold handleFileLoad. destruct (bool_decide _); [done |].
  destruct (data file) as [doc|]; [| done].
  destruct (restoreFromSnapshot_stacks doc s) as [Hu Hr].
  destruct (restoreFromSnapshot doc s) as [[|] s1]; cbn in Hu, Hr.
  - split; cbn; unfold HISTORY_LIMIT; lia.
  - by apply (history_bounded_frame s).
Qed.

Lemma step_history (ev : Event) (env : Env) (s : State) :
  history_bounded s → history_bounded (step ev env s).
Proof.
  intros Hb. destruct ev; cbn [step]; try exact Hb.
  - unfold draw, updateWorldBounds. cbn zeta.
    by destruct (isBoundaryStatic (getCanvasMousePos env s)).
  - by apply mousePressed_history.
  - unfold mouseDragged. repeat case_match; exact Hb.
  - unfold mouseReleased. destruct (draggedNode s); [| done].
    apply saveState_bounded. by apply history_bounded_le.
  - unfold handleConnectButton. by destruct (selectedNode s).
  - by apply handleFileLoad_history.
  - unfold connectModeOff. by destruct (isConnectingNode s).
  - unfold connectModeOn, handleConnectButton. by repeat case_match.
  - by apply undo_history.
  - by apply redo_history.
Qed.

(** X1: in every state the running sketch can reach, the undo stack
    holds at least one snapshot and the two history stacks together hold
    at most [HISTORY_LIMIT] (50) snapshots. *)
Theorem reachable_history_bounded (s : State) :
  reachable s →
  1 ≤ length (undoStack s)
  ∧ length (undoStack s) + length (redoStack s) ≤ HISTORY_LIMIT.
Proof.
  induction 1 as [|ev env s _ IH].
  - split; vm_compute; lia.
  - by apply step_history.
Qed.

Lemma reachable_history_bounded_witness :
  1 ≤ length (undoStack (step EMousePressed env0 setup))
  ∧ length (undoStack (step EMousePressed env0 setup))
    + length (redoStack (step EMousePressed env0 setup)) ≤ HISTORY_LIMIT.
Proof.
  apply (reachable_history_bounded (step EMousePressed env0 setup)).
  apply reach_step. apply reach_setup.
Defined.

(** ** Snapshots *)

Lemma snapshot_restore_node (labels : bool) (d : NodeData) :
  snapshot_node (restore_node labels d) = d.
Proof. by destruct d. Qed.

Lemma map_fresh {B} (f : Node.t → B) (h fresh : list Node.t) :
  map (λ n : ref, f ((h ++ fresh) !!! n)) (seq (length h) (length fresh))
  = map f fresh.
Proof.
  apply list_eq. intros i. rewrite !list_lookup_fmap.
  destruct (decide (i < length fresh)) as [Hlt|Hge].
  - rewrite lookup_seq_lt by exact Hlt. cbn.
    rewrite lookup_total_app_r by lia.
    replace (length h + i - length h) with i by lia.
    by rewrite (list_lookup_lookup_total_lt fresh i Hlt).
  - rewrite lookup_seq_ge by lia.
    rewrite (proj2 (lookup_ge_None fresh i)) by lia. done.
Qed.

Lemma find_node_Some (h : list Node.t) (ns : list ref) (i : Z) (n : ref) :
  find_node h ns i = Some n → n ∈ ns ∧ Node.id (h !!! n) = i.
Proof.
  unfold find_node. intros [Hin Hid]%find_some. split.
  - by apply list_elem_of_In.
  - by apply bool_decide_eq_true in Hid.
Qed.

Lemma find_node_is_Some (h : list Node.t) (ns : list ref) (i : Z) :
  is_Some (find_node h ns i) ↔ i ∈ map (λ n : ref, Node.id (h !!! n)) ns.
Proof.
  unfold find_node. induction ns as [|m ns IH]; cbn.
  - split; [by intros [? ?] | by intros ?%elem_of_nil].
  - case_bool_decide as Hm.
    + split; [intros _; rewrite Hm; left | by eauto].
    + rewrite IH. split; [by right |].
      intros [?|?]%elem_of_cons; [congruence | done].
Qed.


Section Restore.
Context (nds : list NodeData) (es : list (Z * Z)) (s : State).

Let fresh := map (restore_node (isLabelsAlwaysVisible s)) nds.
Let h' := heap s ++ fresh.
Let ns' := seq (length (heap s)) (length nds).
Let s' := (restoreFromSnapshot (JObject (Some nds) (Some es)) s).2.

Lemma restore_fields :
  (restoreFromSnapshot (JObject (Some nds) (Some es)) s).1 = Normal
  ∧ heap s' = h' ∧ nodes s' = ns'
  ∧ edges s' = omap (restore_edge h' ns') es.
Proof. done. Qed.

Lemma restore_ids : map (λ n : ref, Node.id (h' !!! n)) ns' = snapshot_ids nds.
Proof.
  subst h' ns' fresh.
  replace (length nds)
    with (length (map (restore_node (isLabelsAlwaysVisible s)) nds))
    by apply length_map.
  rewrite (map_fresh Node.id). unfold snapshot_ids. rewrite map_map.
  apply map_ext. intros d. reflexivity.
Qed.

Lemma restore_edge_Some (e : Z * Z) (a b : ref) :
  restore_edge h' ns' e = Some (a, b) →
  a ∈ ns' ∧ b ∈ ns' ∧ (Node.id (h' !!! a), Node.id (h' !!! b)) = e
  ∧ resolvable nds e.
Proof.
  unfold restore_edge. intros H.
  destruct (find_node h' ns' e.1) as [a'|] eqn:Ha; [| done].
  destruct (find_node h' ns' e.2) as [b'|] eqn:Hb; [| done].
  injection H as -> ->.
  assert (is_Some (find_node h' ns' e.1)) as Hsa by eauto.
  assert (is_Some (find_node h' ns' e.2)) as Hsb by eauto.
  apply find_node_is_Some in Hsa, Hsb. rewrite restore_ids in Hsa, Hsb.
  apply find_node_Some in Ha as [Ha1 Ha2], Hb as [Hb1 Hb2].
  repeat split; try done. rewrite Ha2, Hb2. by destruct e.
Qed.

Lemma restore_edge_None (e : Z * Z) :
  restore_edge h' ns' e = None → ¬ resolvable nds e.
Proof.
  unfold restore_edge, resolvable. rewrite <- restore_ids.
  rewrite <- !find_node_is_Some. intros H [[a Ha] [b Hb]].
  by rewrite Ha, Hb in H.
Qed.

Lemma restore_snapshot_edges :
  map (λ e : ref * ref, (Node.id (h' !!! e.1), Node.id (h' !!! e.2)))
      (omap (restore_edge h' ns') es)
  = filter (resolvable nds) es.
Proof.
  induction es as [|e es' IH]; [done |]. cbn [omap list_omap].
  destruct (restore_edge h' ns' e) as [[a b]|] eqn:He.
  - apply restore_edge_Some in He as (_ & _ & Hid & Hres).
    rewrite filter_cons_True by exact Hres. cbn. by rewrite Hid, IH.
  - apply restore_edge_None in He. by rewrite filter_cons_False.
Qed.
End Restore.

Lemma restore_snapshot_data (p : Snapshot) (s : State) :
  (restoreFromSnapshot (doc_of_snapshot p) s).1 = Normal
  ∧ snap_nodes (createSnapshot (restoreFromSnapshot (doc_of_snapshot p) s).2)
    = snap_nodes p
  ∧ snap_edges (createSnapshot (restoreFromSnapshot (doc_of_snapshot p) s).2)
    = filter (resolvable (snap_nodes p)) (snap_edges p).
Proof.
  destruct p as [nds es]. unfold doc_of_snapshot. cbn [snap_nodes snap_edges].
  destruct (restore_fields nds es s) as (Hc & Hh & Hn & He).
  split; [exact Hc |]. split.
  - unfold createSnapshot. cbn [snap_nodes]. rewrite Hh, Hn.
    replace (length nds)
      with (length (map (restore_node (isLabelsAlwaysVisible s)) nds))
      by apply length_map.
    rewrite (map_fresh snapshot_node), map_map.
    rewrite <- (map_id nds) at 2. apply map_ext, snapshot_restore_node.
  - unfold createSnapshot. cbn [snap_edges]. rewrite Hh, He.
    apply restore_snapshot_edges.
Qed.

(** X2: restoring a snapshot and taking a snapshot again gives the node
    data back unchanged and in order, and the edge list with exactly the
    pairs dropped whose ids name no node of the snapshot; when every pair
    is resolvable the snapshot comes back as it was. *)
Theorem restore_then_snapshot (p : Snapshot) (s : State) :
  (restoreFromSnapshot (doc_of_snapshot p) s).1 = Normal
  ∧ snap_nodes (createSnapshot (restoreFromSnapshot (doc_of_snapshot p) s).2)
    = snap_nodes p
  ∧ snap_edges (createSnapshot (restoreFromSnapshot (doc_of_snapshot p) s).2)
    = filter (resolvable (snap_nodes p)) (snap_edges p)
  ∧ (Forall (resolvable (snap_nodes p)) (snap_edges p) →
     createSnapshot (restoreFromSnapshot (doc_of_snapshot p) s).2 = p).
Proof.
  destruct (restore_snapshot_data p s) as (Hc & Hnodes & Hedges).
  split; [exact Hc |]. split; [exact Hnodes |]. split; [exact Hedges |].
  intros Hall. destruct p as [nds es].
  destruct (createSnapshot _) as [nds' es'] eqn:Hsnap.
  cbn in Hnodes, Hedges, Hall. subst nds' es'. f_equal.
  clear -Hall. induction Hall as [|e es He _ IH]; [done |].
  by rewrite filter_cons_True, IH.
Qed.

Lemma restore_then_snapshot_witness :
  createSnapshot
    (restoreFromSnapshot (doc_of_snapshot (createSnapshot connected)) setup).2
  = createSnapshot connected.
Proof.
  apply (restore_then_snapshot (createSnapshot connected) setup).
  vm_compute. repeat constructor; apply bool_decide_eq_true; vm_compute; done.
Defined.

(** X3: a restore builds its scene from newly allocated nodes only: one
    per node record, none of them an instance that existed before, every
    restored edge joining two of them, and exactly the unresolvable id
    pairs missing: read as pairs of ids, the restored edges are the
    resolvable pairs of the document, in the document's order; it ends
    normally and leaves no selection, hover, drag or connect mode
    behind. *)
Theorem restore_builds_fresh_scene (nds : list NodeData) (es : list (Z * Z))
    (s : State) :
  let r := restoreFromSnapshot (JObject (Some nds) (Some es)) s in
  r.1 = Normal
  ∧ length (nodes r.2) = length nds
  ∧ NoDup (nodes r.2)
  ∧ (∀ n, n ∈ nodes r.2 → length (heap s) ≤ n < length (heap r.2))
  ∧ (∀ e, e ∈ edges r.2 → e.1 ∈ nodes r.2 ∧ e.2 ∈ nodes r.2)
  ∧ length (edges r.2) = length (filter (resolvable nds) es)
  ∧ map (λ e : ref * ref,
           (Node.id (heap r.2 !!! e.1), Node.id (heap r.2 !!! e.2)))
        (edges r.2)
    = filter (resolvable nds) es
  ∧ selectedNode r.2 = None ∧ hoveredNode r.2 = None
  ∧ draggedNode r.2 = None ∧ isConnectingNode r.2 = false.
Proof.
  intros r. destruct (restore_fields nds es s) as (Hc & Hh & Hn & He).
  fold r in Hc, Hh, Hn, He.
  split; [exact Hc |]. rewrite Hn, Hh, He.
  split; [apply length_seq |]. split; [apply NoDup_seq |].
  split; [| split; [| split; [| split; [| done]]]].
  - intros n Hin%elem_of_seq. rewrite length_app, length_map. lia.
  - intros [a b] Hin. apply list_elem_of_omap in Hin as (e & _ & Hre).
    apply restore_edge_Some in Hre as (Ha & Hb & _). by split.
  - rewrite <- restore_snapshot_edges with (s := s). by rewrite length_map.
  - apply restore_snapshot_edges.
Qed.

(** ** Undo and redo *)

Lemma undo_unfold (env : Env) (s : State) (u : list Snapshot) (p c : Snapshot) :
  undoStack s = u ++ [p; c] →
  undo env s
  = restoreFromSnapshot (doc_of_snapshot p)
      (set_redoStack (redoStack s ++ [c]) (set_undoStack (u ++ [p]) s)).
Proof.
  intros Hu. unfold undo.
  assert (undoStack s = (u ++ [p]) ++ [c]) as Hu' by (by rewrite Hu, <- app_assoc).
  rewrite bool_decide_eq_false_2
    by (rewrite Hu', !length_app; cbn; lia).
  rewrite Hu', last_snoc. cbn zeta.
  cbn [undoStack set_undoStack set_redoStack redoStack].
  rewrite removelast_last, last_snoc. reflexivity.
Qed.

Lemma redo_unfold (env : Env) (s : State) (r : list Snapshot) (n : Snapshot) :
  redoStack s = r ++ [n] →
  redo env s
  = restoreFromSnapshot (doc_of_snapshot n)
      (set_undoStack (undoStack s ++ [n]) (set_redoStack r s)).
Proof.
  intros Hr. unfold redo. rewrite Hr, last_snoc. cbn zeta.
  by rewrite removelast_last.
Qed.

Lemma restoreFromSnapshot_toasts (doc : JsonDoc) (s : State) :
  toasts (restoreFromSnapshot doc s).2 = toasts s.
Proof. unfold restoreFromSnapshot. by repeat case_match. Qed.

(** X4: with at least two snapshots on the undo stack, [undo] ends
    normally without a toast, moves the top snapshot onto the redo stack,
    and rebuilds the scene from the snapshot below it: a snapshot of the
    scene then shows that snapshot's nodes, and its edges less the
    unresolvable pairs. *)
Theorem undo_restores_previous (env : Env) (s : State) (u : list Snapshot)
    (p c : Snapshot) :
  undoStack s = u ++ [p; c] →
  (undo env s).1 = Normal
  ∧ undoStack (undo env s).2 = u ++ [p]
  ∧ redoStack (undo env s).2 = redoStack s ++ [c]
  ∧ toasts (undo env s).2 = toasts s
  ∧ snap_nodes (createSnapshot (undo env s).2) = snap_nodes p
  ∧ snap_edges (createSnapshot (undo env s).2)
    = filter (resolvable (snap_nodes p)) (snap_edges p).
Proof.
  intros Hu. rewrite (undo_unfold env s u p c Hu).
  set (s0 := set_redoStack _ _).
  destruct (restore_snapshot_data p s0) as (Hc & Hn & He).
  destruct (restoreFromSnapshot_stacks (doc_of_snapshot p) s0) as [Hus Hrs].
  split; [exact Hc |]. split; [exact Hus |]. split; [exact Hrs |].
  split; [exact (restoreFromSnapshot_toasts _ s0) |]. by split.
Qed.

Lemma undo_restores_previous_witness :
  (undo env0 connected).1 = Normal
  ∧ undoStack (undo env0 connected).2
    = [createSnapshot setup; createSnapshot one_node] ++ [createSnapshot two_nodes]
  ∧ redoStack (undo env0 connected).2
    = redoStack connected ++ [createSnapshot connected]
  ∧ toasts (undo env0 connected).2 = toasts connected
  ∧ snap_nodes (createSnapshot (undo env0 connected).2)
    = snap_nodes (createSnapshot two_nodes)
  ∧ snap_edges (createSnapshot (undo env0 connected).2)
    = filter (resolvable (snap_nodes (createSnapshot two_nodes)))
             (snap_edges (createSnapshot two_nodes)).
Proof.
  apply (undo_restores_previous env0 connected
           [createSnapshot setup; createSnapshot one_node]
           (createSnapshot two_nodes) (createSnapshot connected)).
  reflexivity.
Defined.

(** X5: [redo] right after an [undo] that had something to undo puts both
    history stacks back as they were before the undo, and rebuilds the
    scene that the top snapshot of the undo stack records. *)
Theorem undo_then_redo (env env' : Env) (s : State) (u : list Snapshot)
    (p c : Snapshot) :
  undoStack s = u ++ [p; c] →
  (redo env' (undo env s).2).1 = Normal
  ∧ undoStack (redo env' (undo env s).2).2 = undoStack s
  ∧ redoStack (redo env' (undo env s).2).2 = redoStack s
  ∧ snap_nodes (createSnapshot (redo env' (undo env s).2).2) = snap_nodes c
  ∧ snap_edges (createSnapshot (redo env' (undo env s).2).2)
    = filter (resolvable (snap_nodes c)) (snap_edges c).
Proof.
  intros Hu. rewrite (undo_unfold env s u p c Hu).
  set (s0 := set_redoStack _ _).
  destruct (restoreFromSnapshot_stacks (doc_of_snapshot p) s0) as [Hus Hrs].
  set (s1 := (restoreFromSnapshot (doc_of_snapshot p) s0).2) in *.
  rewrite (redo_unfold env' s1 (redoStack s) c) by exact Hrs.
  set (s2 := set_undoStack _ _).
  destruct (restore_snapshot_data c s2) as (Hc & Hn & He).
  destruct (restoreFromSnapshot_stacks (doc_of_snapshot c) s2) as [Hus2 Hrs2].
  split; [exact Hc |]. split; [| split; [exact Hrs2 | by split]].
  rewrite Hus2. subst s2. cbn [undoStack set_undoStack].
  rewrite Hus. subst s0. cbn [undoStack set_undoStack set_redoStack].
  by rewrite Hu, <- app_assoc.
Qed.

Lemma undo_then_redo_witness :
  (redo env0 (undo env0 connected).2).1 = Normal
  ∧ undoStack (redo env0 (undo env0 connected).2).2 = undoStack connected
  ∧ redoStack (redo env0 (undo env0 connected).2).2 = redoStack connected
  ∧ snap_nodes (createSnapshot (redo env0 (undo env0 connected).2).2)
    = snap_nodes (createSnapshot connected)
  ∧ snap_edges (createSnapshot (redo env0 (undo env0 connected).2).2)
    = filter (resolvable (snap_nodes (createSnapshot connected)))
             (snap_edges (createSnapshot connected)).
Proof.
  apply (undo_then_redo env0 env0 connected
           [createSnapshot setup; createSnapshot one_node]
           (createSnapshot two_nodes) (createSnapshot connected)).
  reflexivity.
Defined.


(** ** A successful load, and history around edits *)

(** X6: loading a JSON file whose document has both a [nodes] and an
    [edges] array replaces the scene by the document's (its node data as
    given, its edges less the unresolvable pairs), resets the camera to
    zoom 1 at the origin, empties the redo stack, leaves the loaded scene
    as the only entry of the undo stack and toasts success; an [undo]
    right after it is refused. *)
Theorem handleFileLoad_replaces_scene (nds : list NodeData) (es : list (Z * Z))
    (env env' : Env) (s : State) :
  let s' := handleFileLoad
              (mkFile "application" "json" (Some (JObject (Some nds) (Some es))))
              env s in
  snap_nodes (createSnapshot s') = nds
  ∧ snap_edges (createSnapshot s') = filter (resolvable nds) es
  ∧ zoom s' = 1%R ∧ offsetX s' = 0%R ∧ offsetY s' = 0%R
  ∧ undoStack s' = [createSnapshot s'] ∧ redoStack s' = []
  ∧ toasts s' = toasts s ++ [mkToast MsgLoaded (millis env) 3000]
  ∧ undo env' s' = (Normal, createToast MsgNothingToUndo env' s').
Proof.
  intros s'.
  destruct (restore_snapshot_data (mkSnapshot nds es) s) as (_ & Hn & He).
  split; [exact Hn |]. split; [exact He |]. repeat split.
Qed.

(** X7: [saveState] empties the redo stack and puts a snapshot of the
    current scene on top of the undo stack; when the undo stack already
    holds [HISTORY_LIMIT] snapshots its oldest entry (the first one ever
    taken included) is dropped to make room, so its depth stays at the
    limit. *)
Theorem saveState_pushes_and_evicts (s : State) :
  redoStack (saveState s) = []
  ∧ last (undoStack (saveState s)) = Some (createSnapshot s)
  ∧ (length (undoStack s) < HISTORY_LIMIT →
     undoStack (saveState s) = undoStack s ++ [createSnapshot s])
  ∧ (length (undoStack s) = HISTORY_LIMIT →
     undoStack (saveState s) = tail (undoStack s) ++ [createSnapshot s]
     ∧ length (undoStack (saveState s)) = HISTORY_LIMIT).
Proof.
  destruct (saveState_stacks s) as [Hr Hu].
  split; [exact Hr |]. rewrite Hu. clear Hr Hu. unfold HISTORY_LIMIT.
  split; [| split].
  - case_bool_decide; [| apply last_snoc].
    destruct (undoStack s) as [|p u]; [cbn in *; lia |]. cbn [app tail].
    apply last_snoc.
  - intros Hlt. by rewrite bool_decide_eq_false_2 by lia.
  - intros Hfull. rewrite bool_decide_eq_true_2 by lia.
    destruct (undoStack s) as [|p u]; [cbn in *; lia |]. cbn [app tail].
    split; [done |]. rewrite length_app. cbn in *. lia.
Qed.

Lemma saveState_pushes_and_evicts_witness :
  undoStack (saveState setup) = undoStack setup ++ [createSnapshot setup]
  ∧ length (undoStack (saveState
              (set_undoStack (replicate 50 (createSnapshot setup)) setup)))
    = HISTORY_LIMIT.
Proof.
  split.
  - apply (saveState_pushes_and_evicts setup). vm_compute. lia.
  - apply (saveState_pushes_and_evicts
             (set_undoStack (replicate 50 (createSnapshot setup)) setup)).
    reflexivity.
Defined.

Lemma undoStack_createNode (s : State) (p : Snapshot) :
  last (undoStack s) = Some p →
  ∃ u, undoStack (createNode s) = u ++ [p; createSnapshot (createNode s)].
Proof.
  intros [u Hu]%last_Some.
  set (s1 := set_isConnectingNode false (set_selectedNode None
               (set_nodes (nodes s ++ [length (heap s)])
                  (set_heap (heap s ++ [Node.new (canvasX s) (canvasY s)
                     (Z.of_nat (length (nodes s)) + 1)
                     (isLabelsAlwaysVisible s)]) s)))).
  assert (createSnapshot (createNode s) = createSnapshot s1) as Hsnap.
  { unfold createNode. cbn zeta. fold s1. unfold createSnapshot.
    by destruct (saveState_frame s1) as (-> & -> & -> & _). }
  destruct (saveState_stacks s1) as [_ Hus].
  change (undoStack (saveState s1)) with (undoStack (createNode s)) in Hus.
  change (undoStack s1) with (undoStack s) in Hus.
  rewrite Hsnap, Hus, Hu. clear Hus. case_bool_decide as Hfull.
  - destruct u as [|q u]; [cbn in Hfull; unfold HISTORY_LIMIT in Hfull; lia |].
    exists u. cbn [app tail]. by rewrite <- app_assoc.
  - exists u. by rewrite <- app_assoc.
Qed.

(** X8: whatever the scene, creating a node and undoing at once rebuilds
    the scene recorded by the snapshot that was on top of the undo stack
    before the creation, and a redo after that rebuilds the scene with the
    created node: one more node than before, its recorded data being those
    of the node created.  The edges of either rebuilt scene, read as pairs
    of ids, are the pairs of the snapshot it was rebuilt from that name
    nodes of that snapshot. *)
Theorem undo_redo_after_createNode (env env' : Env) (s : State) (p : Snapshot) :
  last (undoStack s) = Some p →
  let s1 := createNode s in
  let s2 := (undo env s1).2 in
  let s3 := (redo env' s2).2 in
  snap_nodes (createSnapshot s2) = snap_nodes p
  ∧ length (nodes s2) = length (snap_nodes p)
  ∧ snap_nodes (createSnapshot s3) = snap_nodes (createSnapshot s1)
  ∧ length (nodes s3) = S (length (nodes s))
  ∧ snap_edges (createSnapshot s2)
    = filter (resolvable (snap_nodes p)) (snap_edges p)
  ∧ snap_edges (createSnapshot s3)
    = filter (resolvable (snap_nodes (createSnapshot s1)))
             (snap_edges (createSnapshot s1)).
Proof.
  intros Hlast s1 s2 s3.
  destruct (undoStack_createNode s p Hlast) as [u Hu]. fold s1 in Hu.
  assert (∀ t, length (nodes t) = length (snap_nodes (createSnapshot t)))
    as Hlen by (intros t; unfold createSnapshot; cbn; by rewrite length_map).
  assert (snap_nodes (createSnapshot s2) = snap_nodes p) as H2.
  { subst s2. rewrite (undo_unfold env s1 u p _ Hu).
    apply restore_snapshot_data. }
  assert (snap_nodes (createSnapshot s3) = snap_nodes (createSnapshot s1)) as H3.
  { subst s3 s2. rewrite (undo_unfold env s1 u p _ Hu).
    set (s0 := set_redoStack _ _).
    destruct (restoreFromSnapshot_stacks (doc_of_snapshot p) s0) as [_ Hrs].
    rewrite (redo_unfold env' _ (redoStack s1) (createSnapshot s1)) by exact Hrs.
    apply restore_snapshot_data. }
  split; [exact H2 |]. split; [by rewrite Hlen, H2 |]. split; [exact H3 |].
  split; [| split].
  - rewrite Hlen, H3, <- Hlen. subst s1.
    destruct (createNode_frame s) as (-> & _). rewrite length_app. cbn. lia.
  - subst s2. rewrite (undo_unfold env s1 u p _ Hu).
    apply restore_snapshot_data.
  - subst s3 s2. rewrite (undo_unfold env s1 u p _ Hu).
    set (s0 := set_redoStack _ _).
    destruct (restoreFromSnapshot_stacks (doc_of_snapshot p) s0) as [_ Hrs].
    rewrite (redo_unfold env' _ (redoStack s1) (createSnapshot s1)) by exact Hrs.
    apply restore_snapshot_data.
Qed.

Lemma undo_redo_after_createNode_witness :
  snap_nodes (createSnapshot (undo env0 (createNode setup)).2) = []
  ∧ length (nodes (undo env0 (createNode setup)).2) = 0
  ∧ snap_nodes (createSnapshot (redo env0 (undo env0 (createNode setup)).2).2)
    = snap_nodes (createSnapshot (createNode setup))
  ∧ length (nodes (redo env0 (undo env0 (createNode setup)).2).2) = 1
  ∧ snap_edges (createSnapshot (undo env0 (createNode setup)).2)
    = filter (resolvable (snap_nodes (createSnapshot globals)))
             (snap_edges (createSnapshot globals))
  ∧ snap_edges (createSnapshot (redo env0 (undo env0 (createNode setup)).2).2)
    = filter (resolvable (snap_nodes (createSnapshot (createNode setup))))
             (snap_edges (createSnapshot (createNode setup))).
Proof.
  apply (undo_redo_after_createNode env0 env0 setup (createSnapshot globals)).
  reflexivity.
Defined.

(** ** Pointer gestures *)

(** X9: a press of a button other than the right one over a node, outside
    connect mode, selects that node and starts dragging it in the same
    press, whatever was selected before; nodes, edges, the store and the
    history are untouched. *)
Theorem mousePressed_selects_and_drags (env : Env) (s : State) (h : ref) :
  outside_canvas env = false → mouseButton env ≠ RIGHT →
  hoveredNode s = Some h → isConnectingNode s = false →
  mousePressed env s = set_draggedNode (Some h) (set_selectedNode (Some h) s).
Proof.
  intros Hin Hbtn Hhov Hconn. unfold mousePressed. rewrite Hin.
  destruct (decide (mouseButton env = RIGHT)) as [|_]; [done |].
  rewrite Hhov, Hconn.
  rewrite (bool_decide_eq_true_2 (is_Some (Some h))) by eauto.
  cbn [negb andb]. cbn [selectedNode hoveredNode isConnectingNode set_selectedNode].
  rewrite Hhov, Hconn.
  rewrite (bool_decide_eq_true_2 (Some h = Some h)) by done.
  rewrite (bool_decide_eq_true_2 (is_Some (Some h))) by eauto.
  reflexivity.
Qed.

Lemma mousePressed_selects_and_drags_witness :
  mousePressed env0 hovering
  = set_draggedNode (Some 0) (set_selectedNode (Some 0) hovering).
Proof.
  apply (mousePressed_selects_and_drags env0 hovering 0).
  - exact outside_canvas_env0.
  - discriminate.
  - reflexivity.
  - reflexivity.
Defined.

Lemma attemptConnection_dragged (tgt : option ref) (env : Env) (s : State) :
  draggedNode (attemptConnection tgt env s) = draggedNode s
  ∧ hoveredNode (attemptConnection tgt env s) = hoveredNode s.
Proof.
  unfold attemptConnection, saveState. by repeat case_match.
Qed.

(** X10: while connect mode is on, no press starts, moves or ends a drag:
    [mousePressed] leaves [draggedNode] as it was, whichever button is
    pressed and whatever is hovered. *)
Theorem mousePressed_connecting_never_drags (env : Env) (s : State) :
  isConnectingNode s = true →
  draggedNode (mousePressed env s) = draggedNode s.
Proof.
  intros Hconn. unfold mousePressed.
  destruct (outside_canvas env); [done |].
  destruct (decide (mouseButton env = RIGHT)).
  { unfold deleteHovered, saveState. by repeat case_match. }
  rewrite Hconn. cbn [negb].
  destruct (negb (bool_decide (is_Some (hoveredNode s))) && negb (spaceDown env))
    eqn:Hcreate.
  - destruct (createNode_frame s) as (_ & _ & _ & Hh). rewrite Hh.
    apply andb_true_iff in Hcreate as [Hnone _].
    apply negb_true_iff in Hnone. rewrite Hnone, andb_false_r. cbn [andb].
    unfold createNode, saveState. by repeat case_match.
  - destruct (attemptConnection_dragged (hoveredNode s) env s) as [Hd Hh].
    destruct (selectedNode s) as [a|] eqn:Hsel; cycle 1.
    { rewrite attemptConnection_rejected by (by left).
      rewrite Hconn, andb_false_r. done. }
    destruct (hoveredNode s) as [b|] eqn:Hhov; cycle 1.
    { rewrite attemptConnection_rejected by (right; by left).
      rewrite Hconn, andb_false_r. done. }
    destruct (decide (a = b)) as [->|Hne].
    { rewrite attemptConnection_rejected by (right; right; congruence).
      rewrite Hconn, andb_false_r. done. }
    destruct (attemptConnection_attempted a b env s Hsel Hne) as (_ & Hs' & _).
    rewrite Hs', Hh.
    rewrite (bool_decide_eq_false_2 (None = Some b)) by done.
    cbn [andb]. exact Hd.
Qed.

Lemma mousePressed_connecting_never_drags_witness :
  draggedNode (mousePressed env0 connecting) = draggedNode connecting.
Proof.
  apply (mousePressed_connecting_never_drags env0 connecting). reflexivity.
Defined.

(** X11: a press on empty canvas with the space key held (the start of a
    pan) creates no node and records nothing, but outside connect mode it
    clears the selection. *)
Theorem mousePressed_space_clears_selection (env : Env) (s : State) :
  outside_canvas env = false → mouseButton env ≠ RIGHT →
  hoveredNode s = None → spaceDown env = true → isConnectingNode s = false →
  mousePressed env s = set_selectedNode None s.
Proof.
  intros Hin Hbtn Hhov Hspace Hconn. unfold mousePressed. rewrite Hin.
  destruct (decide (mouseButton env = RIGHT)) as [|_]; [done |].
  rewrite Hhov, Hspace, Hconn. cbn [negb andb].
  rewrite andb_false_r. cbn [negb].
  cbn [selectedNode hoveredNode isConnectingNode set_selectedNode].
  rewrite Hhov.
  rewrite (bool_decide_eq_false_2 (is_Some (@None ref))) by apply is_Some_None.
  by rewrite andb_false_r.
Qed.

Lemma mousePressed_space_clears_selection_witness :
  mousePressed (mkEnv 100 100 100 100 800 600 LEFT true 0)
               (set_selectedNode (Some 1) two_nodes)
  = set_selectedNode None (set_selectedNode (Some 1) two_nodes).
Proof.
  apply (mousePressed_space_clears_selection
           (mkEnv 100 100 100 100 800 600 LEFT true 0)
           (set_selectedNode (Some 1) two_nodes)).
  - apply outside_canvas_false; cbn; lra.
  - discriminate.
  - reflexivity.
  - reflexivity.
  - reflexivity.
Defined.

(** X12: with no drag in progress and the space key held, [mouseDragged]
    pans: the zoom and every node are untouched, and the world point that
    was under the pointer at the previous frame is under the pointer now,
    at any zoom. *)
Theorem mouseDragged_pans (env : Env) (s : State) :
  outside_canvas env = false → draggedNode s = None → spaceDown env = true →
  zoom (mouseDragged env s) = zoom s
  ∧ heap (mouseDragged env s) = heap s
  ∧ offsetX (mouseDragged env s) = (offsetX s + (mouseX env - pmouseX env))%R
  ∧ offsetY (mouseDragged env s) = (offsetY s + (mouseY env - pmouseY env))%R
  ∧ screenToWorld (mouseX env) (mouseY env) (mouseDragged env s)
    = screenToWorld (pmouseX env) (pmouseY env) s.
Proof.
  intros Hin Hdrag Hspace. unfold mouseDragged. rewrite Hin, Hdrag, Hspace.
  repeat split. unfold screenToWorld. cbn. unfold Rdiv. f_equal; f_equal; ring.
Qed.

Lemma mouseDragged_pans_witness :
  screenToWorld 130 90 (mouseDragged (mkEnv 130 90 100 100 800 600 LEFT true 0)
                                     two_nodes)
  = screenToWorld 100 100 two_nodes.
Proof.
  apply (mouseDragged_pans (mkEnv 130 90 100 100 800 600 LEFT true 0) two_nodes).
  - apply outside_canvas_false; cbn; lra.
  - reflexivity.
  - reflexivity.
Defined.

(** X13: while a node is being dragged, [mouseDragged] only retargets it:
    its target becomes the pointer's world position of the last frame,
    its position and velocity and every other node stay, and the camera
    does not pan even with the space key held. *)
Theorem mouseDragged_retargets (env : Env) (s : State) (n : ref) :
  outside_canvas env = false → draggedNode s = Some n →
  (n < length (heap s))%nat →
  let s' := mouseDragged env s in
  Node.tx (heap s' !!! n) = canvasX s ∧ Node.ty (heap s' !!! n) = canvasY s
  ∧ Node.x (heap s' !!! n) = Node.x (heap s !!! n)
  ∧ Node.y (heap s' !!! n) = Node.y (heap s !!! n)
  ∧ Node.vx (heap s' !!! n) = Node.vx (heap s !!! n)
  ∧ Node.vy (heap s' !!! n) = Node.vy (heap s !!! n)
  ∧ (∀ m, m ≠ n → heap s' !!! m = heap s !!! m)
  ∧ offsetX s' = offsetX s ∧ offsetY s' = offsetY s ∧ zoom s' = zoom s.
Proof.
  intros Hin Hdrag Hn s'. subst s'. unfold mouseDragged. rewrite Hin, Hdrag.
  cbn [heap set_heap offsetX offsetY zoom].
  rewrite list_lookup_total_alter_eq by exact Hn.
  repeat split. intros m Hm. by apply list_lookup_total_alter_ne.
Qed.

Lemma mouseDragged_retargets_witness :
  let s := set_draggedNode (Some 0) (set_canvasX 200 one_node) in
  let s' := mouseDragged env0 s in
  Node.tx (heap s' !!! 0) = canvasX s ∧ Node.ty (heap s' !!! 0) = canvasY s
  ∧ Node.x (heap s' !!! 0) = Node.x (heap s !!! 0)
  ∧ Node.y (heap s' !!! 0) = Node.y (heap s !!! 0)
  ∧ Node.vx (heap s' !!! 0) = Node.vx (heap s !!! 0)
  ∧ Node.vy (heap s' !!! 0) = Node.vy (heap s !!! 0)
  ∧ (∀ m, m ≠ 0 → heap s' !!! m = heap s !!! m)
  ∧ offsetX s' = offsetX s ∧ offsetY s' = offsetY s ∧ zoom s' = zoom s.
Proof.
  apply (mouseDragged_retargets env0
           (set_draggedNode (Some 0) (set_canvasX 200 one_node)) 0).
  - exact outside_canvas_env0.
  - reflexivity.
  - vm_compute. lia.
Defined.

(** X14: [mouseReleased] ends a drag and records it: with a node being
    dragged, the drag is over, the redo stack is emptied and the top of
    the undo stack is a snapshot of the scene as the drag left it, which
    is itself untouched; with no drag in progress nothing changes, and in
    particular nothing is recorded. *)
Theorem mouseReleased_records_drag (s : State) :
  (∀ n, draggedNode s = Some n →
     draggedNode (mouseReleased s) = None
     ∧ redoStack (mouseReleased s) = []
     ∧ last (undoStack (mouseReleased s)) = Some (createSnapshot s)
     ∧ heap (mouseReleased s) = heap s ∧ nodes (mouseReleased s) = nodes s
     ∧ edges (mouseReleased s) = edges s
     ∧ selectedNode (mouseReleased s) = selectedNode s)
  ∧ (draggedNode s = None → mouseReleased s = s).
Proof.
  split.
  - intros n Hdrag. unfold mouseReleased. rewrite Hdrag.
    destruct (saveState_frame (set_draggedNode None s))
      as (Hh & Hn & He & _ & Hs & _ & Hd & _).
    destruct (saveState_stacks (set_draggedNode None s)) as [Hr Hu].
    split; [exact Hd |]. split; [exact Hr |].
    split; [| by repeat split].
    rewrite Hu. case_bool_decide; [| apply last_snoc].
    cbn [undoStack set_draggedNode] in *.
    destruct (undoStack s) as [|p u]; [cbn in *; unfold HISTORY_LIMIT in *; lia |].
    cbn [app tail]. apply last_snoc.
  - intros Hdrag. unfold mouseReleased. by rewrite Hdrag.
Qed.

Lemma mouseReleased_records_drag_witness :
  draggedNode (mouseReleased (set_draggedNode (Some 0) one_node)) = None
  ∧ redoStack (mouseReleased (set_draggedNode (Some 0) one_node)) = []
  ∧ mouseReleased one_node = one_node.
Proof.
  destruct (mouseReleased_records_drag (set_draggedNode (Some 0) one_node))
    as [Hyes _].
  destruct (mouseReleased_records_drag one_node) as [_ Hno].
  destruct (Hyes 0 eq_refl) as (Hd & Hr & _).
  split; [exact Hd |]. split; [exact Hr |]. apply Hno. reflexivity.
Defined.

Lemma index_from_bounds (i : Z) (ns : list ref) (n : ref) :
  (index_from i ns n = -1 ∨ i ≤ index_from i ns n)%Z.
Proof.
  revert i. induction ns as [|m ns IH]; intros i; cbn; [by left |].
  destruct (decide (m = n)); [right; lia |].
  destruct (IH (i + 1)%Z) as [-> | H]; [by left | right; lia].
Qed.

Lemma index_from_inj (i : Z) (ns : list ref) (n m : ref) :
  (0 ≤ i)%Z → n ∈ ns → index_from i ns n = index_from i ns m → n = m.
Proof.
  revert i. induction ns as [|k ns IH]; intros i Hi Hin Heq.
  { by apply elem_of_nil in Hin. }
  cbn in Heq.
  destruct (decide (k = n)) as [Hkn|Hkn], (decide (k = m)) as [Hkm|Hkm].
  - congruence.
  - destruct (index_from_bounds (i + 1) ns m) as [H | H]; lia.
  - destruct (index_from_bounds (i + 1) ns n) as [H | H]; [| lia].
    apply elem_of_cons in Hin as [Hin | Hin]; [congruence |].
    apply list_elem_of_split_l in Hin as (l1 & l2 & -> & Hfirst).
    rewrite index_from_first in H by exact Hfirst. lia.
  - apply elem_of_cons in Hin as [Hin | Hin]; [congruence |].
    apply (IH (i + 1)%Z); [lia | done | done].
Qed.

(** X15: deleting the hovered node of the collection clears the selection
    exactly when the deleted node was the selected one; any other
    selection is kept, and connect mode is left as it was, so deleting
    the selected node while connecting leaves connect mode on with
    nothing selected. *)
Theorem delete_selection_rule (env : Env) (s : State) (h : ref) :
  outside_canvas env = false → mouseButton env = RIGHT →
  hoveredNode s = Some h → h ∈ nodes s →
  selectedNode (mousePressed env s)
  = (if decide (selectedNode s = Some h) then None else selectedNode s)
  ∧ isConnectingNode (mousePressed env s) = isConnectingNode s.
Proof.
  intros Hin Hbtn Hhov Hmem. rewrite (mousePressed_right env s Hin Hbtn).
  unfold deleteHovered. rewrite Hhov. cbn zeta.
  set (b := bool_decide (indexOf (nodes s) (selectedNode s)
                         = indexOf (nodes s) (Some h))).
  assert (b = bool_decide (selectedNode s = Some h)) as ->.
  { subst b. apply bool_decide_ext. split; [| by intros ->].
    intros Heq. destruct (selectedNode s) as [sel|]; cbn in Heq.
    - f_equal. symmetry. by apply (index_from_inj 0 (nodes s) h sel).
    - apply list_elem_of_split_l in Hmem as (l1 & l2 & Hsplit & Hfirst).
      rewrite Hsplit, index_from_first in Heq by exact Hfirst. lia. }
  destruct (decide (selectedNode s = Some h)) as [Hsel|Hsel].
  - rewrite (bool_decide_eq_true_2 (selectedNode s = Some h)) by exact Hsel.
    unfold saveState, updateNodesID. by repeat case_match.
  - rewrite (bool_decide_eq_false_2 (selectedNode s = Some h)) by exact Hsel.
    unfold saveState, updateNodesID. by repeat case_match.
Qed.

Lemma delete_selection_rule_witness :
  selectedNode (mousePressed env_right editing)
  = (if decide (selectedNode editing = Some 0) then None
     else selectedNode editing)
  ∧ isConnectingNode (mousePressed env_right editing) = isConnectingNode editing.
Proof.
  apply (delete_selection_rule env_right editing 0).
  - exact outside_canvas_env_right.
  - reflexivity.
  - reflexivity.
  - change (nodes editing) with (nodes hovering). rewrite nodes_hovering.
    apply list_elem_of_here.
Defined.

(** ** More on the camera *)

Section CameraMore.
Local Open Scope R_scope.

(** X16: moving the zoom slider to a value inside
    [[MIN_ZOOM, MAX_ZOOM]] makes that value the zoom, whatever the zoom
    was, and keeps the world point at the centre of the canvas where it
    is.  The code reaches the value as [zoom + (value - zoom)]: the
    equalities are those of exact arithmetic, and in the doubles of the
    program they hold up to the rounding of that sum and of the offsets
    computed from it. *)
Theorem handleZoom_sets_zoom (v : R) (env : Env) (s : State) :
  MIN_ZOOM <= v <= MAX_ZOOM →
  zoom (handleZoom v env s) = v
  ∧ screenToWorld (width env / 2) (height env / 2) (handleZoom v env s)
    = screenToWorld (width env / 2) (height env / 2) s.
Proof.
  intros Hv. unfold handleZoom. cbn zeta.
  assert (zoom (applyZoom (v - zoom s) (width env / 2) (height env / 2) s) = v)
    as Hz.
  { rewrite zoom_applyZoom. replace (zoom s + (v - zoom s)) with v by ring.
    by apply constrain_inside. }
  split; [exact Hz |].
  unfold screenToWorld at 1. rewrite Hz.
  assert (v ≠ 0) as Hv0 by (pose proof MIN_ZOOM_pos; lra).
  cbn [offsetX offsetY applyZoom set_zoom set_offsetX set_offsetY].
  unfold screenToWorld; cbn [fst snd].
  replace (zoom s + (v - zoom s)) with v by ring.
  rewrite constrain_inside by exact Hv.
  generalize ((width env / 2 - offsetX s) / zoom s).
  generalize ((height env / 2 - offsetY s) / zoom s).
  intros wy wx. f_equal; field; exact Hv0.
Qed.

Lemma handleZoom_sets_zoom_witness :
  zoom (handleZoom 2 env0 setup) = 2
  ∧ screenToWorld (width env0 / 2) (height env0 / 2) (handleZoom 2 env0 setup)
    = screenToWorld (width env0 / 2) (height env0 / 2) setup.
Proof.
  apply (handleZoom_sets_zoom 2 env0 setup). unfold MIN_ZOOM, MAX_ZOOM. lra.
Defined.

(** X17: a zoom-in step followed by a zoom-out step puts the camera back
    (zoom and both offsets) when the zoom-in did not hit the upper limit;
    at [MAX_ZOOM] a zoom-in step leaves the zoom at [MAX_ZOOM].  The
    restoration is an equality of exact arithmetic: in the doubles of the
    program [zoom + 0.1 - 0.1] and the offsets recomputed from it come
    back up to rounding. *)
Theorem zoomIn_zoomOut (env : Env) (s : State) :
  (MIN_ZOOM <= zoom s <= MAX_ZOOM - 0.1 →
   zoom (zoomOut env (zoomIn env s)) = zoom s
   ∧ offsetX (zoomOut env (zoomIn env s)) = offsetX s
   ∧ offsetY (zoomOut env (zoomIn env s)) = offsetY s)
  ∧ (zoom s = MAX_ZOOM → zoom (zoomIn env s) = MAX_ZOOM).
Proof.
  split.
  - intros Hz. unfold MIN_ZOOM, MAX_ZOOM in Hz.
    assert (zoom (zoomIn env s) = zoom s + 0.1) as Hin.
    { unfold zoomIn. rewrite zoom_applyZoom. apply constrain_inside.
      unfold MIN_ZOOM, MAX_ZOOM. lra. }
    assert (zoom (zoomOut env (zoomIn env s)) = zoom s) as Hout.
    { unfold zoomOut. rewrite zoom_applyZoom, Hin.
      replace (zoom s + 0.1 + - 0.1) with (zoom s) by lra.
      apply constrain_inside. unfold MIN_ZOOM, MAX_ZOOM. lra. }
    split; [exact Hout |].
    assert (zoom s ≠ 0) as Hz0 by lra.
    assert (zoom s + 0.1 ≠ 0) as Hz1 by lra.
    assert (∀ t d px py,
              offsetX (applyZoom d px py t)
              = px - (px - offsetX t) / zoom t * zoom (applyZoom d px py t)
              ∧ offsetY (applyZoom d px py t)
                = py - (py - offsetY t) / zoom t * zoom (applyZoom d px py t))
      as Hoff by (intros; split; reflexivity).
    unfold zoomOut in *. unfold zoomIn in *.
    destruct (Hoff (applyZoom 0.1 (width env / 2) (height env / 2) s)
                   (- 0.1) (width env / 2) (height env / 2)) as [-> ->].
    destruct (Hoff s 0.1 (width env / 2) (height env / 2)) as [-> ->].
    rewrite Hout, Hin. split; field; done.
  - intros Hmax. unfold zoomIn. rewrite zoom_applyZoom, Hmax.
    apply constrain_above; unfold MIN_ZOOM, MAX_ZOOM; lra.
Qed.

Lemma zoomIn_zoomOut_witness :
  (zoom (zoomOut env0 (zoomIn env0 setup)) = zoom setup
   ∧ offsetX (zoomOut env0 (zoomIn env0 setup)) = offsetX setup
   ∧ offsetY (zoomOut env0 (zoomIn env0 setup)) = offsetY setup)
  ∧ zoom (zoomIn env0 (set_zoom 5 setup)) = MAX_ZOOM.
Proof.
  split.
  - apply (zoomIn_zoomOut env0 setup).
    unfold MIN_ZOOM, MAX_ZOOM. change (zoom setup) with 1. lra.
  - apply (zoomIn_zoomOut env0 (set_zoom 5 setup)). reflexivity.
Defined.

(** X18: unless the boundary is static, [updateWorldBounds] makes the
    world rectangle the part of the world the canvas shows: its top-left
    corner is drawn at screen (0, 0) and its bottom-right corner at
    (width, height), and it is not inverted; with a static boundary the
    rectangle is (0, 0)-(width, height) in world coordinates whatever the
    camera. *)
Theorem updateWorldBounds_follows_camera (env : Env) (s : State) :
  let wb := worldBounds (updateWorldBounds env s) in
  (isBoundaryStatic s = true →
   wb = Bounds.mk 0 (width env) 0 (height env))
  ∧ (isBoundaryStatic s = false → 0 < zoom s →
     worldToScreen (Bounds.left wb) (Bounds.top wb) s = (0, 0)
     ∧ worldToScreen (Bounds.right wb) (Bounds.bottom wb) s
       = (width env, height env)
     ∧ (0 <= width env → Bounds.left wb <= Bounds.right wb)
     ∧ (0 <= height env → Bounds.top wb <= Bounds.bottom wb)).
Proof.
  intros wb. subst wb. unfold updateWorldBounds. split.
  - intros ->. reflexivity.
  - intros -> Hz. cbn [worldBounds set_worldBounds Bounds.left Bounds.right
                       Bounds.top Bounds.bottom fst snd screenToWorld].
    assert (zoom s ≠ 0) as Hz0 by lra.
    split; [apply (worldToScreen_after_screenToWorld s 0 0 Hz0) |].
    split; [apply (worldToScreen_after_screenToWorld s _ _ Hz0) |].
    assert (0 < / zoom s) as Hinv by (by apply Rinv_0_lt_compat).
    unfold Rdiv. split; intros Hw; apply Rmult_le_compat_r; lra.
Qed.

Lemma updateWorldBounds_follows_camera_witness :
  worldBounds (updateWorldBounds env0 (set_isBoundaryStatic true setup))
  = Bounds.mk 0 800 0 600
  ∧ worldToScreen (Bounds.right (worldBounds (updateWorldBounds env0 setup)))
                  (Bounds.bottom (worldBounds (updateWorldBounds env0 setup)))
                  setup
    = (800, 600).
Proof.
  split.
  - apply (updateWorldBounds_follows_camera env0
             (set_isBoundaryStatic true setup)). reflexivity.
  - apply (updateWorldBounds_follows_camera env0 setup); [reflexivity |].
    change (zoom setup) with 1. lra.
Defined.
End CameraMore.

(** ** More on the physics *)

Section Physics.
Local Open Scope R_scope.


Lemma Node_ext (n m : Node.t) :
  Node.x n = Node.x m → Node.y n = Node.y m → Node.vx n = Node.vx m →
  Node.vy n = Node.vy m → Node.r n = Node.r m → Node.id n = Node.id m →
  Node.label n = Node.label m → Node.tx n = Node.tx m → Node.ty n = Node.ty m →
  Node.speed n = Node.speed m → Node.friction n = Node.friction m →
  Node.labelVisible n = Node.labelVisible m → n = m.
Proof.
  intros. change n with (Node.mk (Node.x n) (Node.y n) (Node.vx n) (Node.vy n)
    (Node.r n) (Node.id n) (Node.label n) (Node.tx n) (Node.ty n)
    (Node.speed n) (Node.friction n) (Node.labelVisible n)).
  change m with (Node.mk (Node.x m) (Node.y m) (Node.vx m) (Node.vy m)
    (Node.r m) (Node.id m) (Node.label m) (Node.tx m) (Node.ty m)
    (Node.speed m) (Node.friction m) (Node.labelVisible m)).
  congruence.
Qed.

Lemma applyBoundary_inside (wb : Bounds.t) (n : Node.t) :
  inside_bounds wb n → Node.applyBoundary wb n = n.
Proof.
  intros (Hl & Hr & Ht & Hb). unfold Node.applyBoundary. cbn zeta.
  rewrite !Rltb_false, !Rgtb_false by lra. reflexivity.
Qed.

(** X19: [applyBoundary] never moves a node and leaves a node that is
    inside the rectangle (radius included) untouched; a node sticking out
    on the left only gets its horizontal velocity raised by 0.1 times the
    depth it sticks out, one sticking out on the right only gets it
    lowered likewise, and the same holds vertically for top and bottom. *)
Theorem applyBoundary_pushes_inward (wb : Bounds.t) (n : Node.t) :
  Node.x (Node.applyBoundary wb n) = Node.x n
  ∧ Node.y (Node.applyBoundary wb n) = Node.y n
  ∧ (inside_bounds wb n → Node.applyBoundary wb n = n)
  ∧ (Node.x n - Node.r n < Bounds.left wb → Node.x n + Node.r n <= Bounds.right wb →
     Node.vx (Node.applyBoundary wb n)
     = Node.vx n + (Bounds.left wb - (Node.x n - Node.r n)) * 0.1
     ∧ Node.vx n < Node.vx (Node.applyBoundary wb n))
  ∧ (Bounds.left wb <= Node.x n - Node.r n → Node.x n + Node.r n > Bounds.right wb →
     Node.vx (Node.applyBoundary wb n)
     = Node.vx n - (Node.x n + Node.r n - Bounds.right wb) * 0.1
     ∧ Node.vx (Node.applyBoundary wb n) < Node.vx n)
  ∧ (Node.y n - Node.r n < Bounds.top wb → Node.y n + Node.r n <= Bounds.bottom wb →
     Node.vy (Node.applyBoundary wb n)
     = Node.vy n + (Bounds.top wb - (Node.y n - Node.r n)) * 0.1
     ∧ Node.vy n < Node.vy (Node.applyBoundary wb n))
  ∧ (Bounds.top wb <= Node.y n - Node.r n → Node.y n + Node.r n > Bounds.bottom wb →
     Node.vy (Node.applyBoundary wb n)
     = Node.vy n - (Node.y n + Node.r n - Bounds.bottom wb) * 0.1
     ∧ Node.vy (Node.applyBoundary wb n) < Node.vy n).
Proof.
  split; [reflexivity |]. split; [reflexivity |].
  split; [apply applyBoundary_inside |].
  unfold Node.applyBoundary. cbn zeta.
  cbn [Node.vx Node.vy Node.with_vel].
  split; [| split; [| split]]; intros H1 H2.
  - rewrite (Rltb_true _ _ H1), Rgtb_false by lra. split; lra.
  - rewrite Rltb_false, (Rgtb_true _ _ H2) by lra. split; lra.
  - rewrite (Rltb_true _ _ H1), Rgtb_false by lra. split; lra.
  - rewrite Rltb_false, (Rgtb_true _ _ H2) by lra. split; lra.
Qed.

Lemma applyBoundary_pushes_inward_witness :
  Node.applyBoundary (Bounds.mk 0 800 0 600) lone = lone
  ∧ Node.vx (Node.applyBoundary (Bounds.mk 0 800 0 600) (Node.new 10 100 1 false))
    = Node.vx (Node.new 10 100 1 false)
      + (Bounds.left (Bounds.mk 0 800 0 600)
         - (Node.x (Node.new 10 100 1 false) - Node.r (Node.new 10 100 1 false)))
        * 0.1
  ∧ Node.vx (Node.new 10 100 1 false)
    < Node.vx (Node.applyBoundary (Bounds.mk 0 800 0 600)
                                  (Node.new 10 100 1 false)).
Proof.
  destruct (applyBoundary_pushes_inward (Bounds.mk 0 800 0 600) lone)
    as (_ & _ & Hin & _).
  destruct (applyBoundary_pushes_inward (Bounds.mk 0 800 0 600)
              (Node.new 10 100 1 false)) as (_ & _ & _ & Hleft & _).
  split.
  - apply Hin. unfold inside_bounds. cbn. lra.
  - apply Hleft; cbn; lra.
Defined.

(** X20: after [applyRepulsion] both velocity components of the node it
    ran on lie in [[-5, 5]], whatever force was accumulated; its position
    and every other node are untouched. *)
Theorem applyRepulsion_clamps (others : list ref) (this : ref) (h : list Node.t) :
  (this < length h)%nat →
  let h' := Node.applyRepulsion others this h in
  -5 <= Node.vx (h' !!! this) <= 5 ∧ -5 <= Node.vy (h' !!! this) <= 5
  ∧ Node.x (h' !!! this) = Node.x (h !!! this)
  ∧ Node.y (h' !!! this) = Node.y (h !!! this)
  ∧ (∀ m, m ≠ this → h' !!! m = h !!! m).
Proof.
  intros Hlt h'. subst h'. unfold Node.applyRepulsion.
  rewrite list_lookup_total_alter_eq by exact Hlt.
  unfold Node.repulse. cbn [Node.vx Node.vy Node.x Node.y Node.with_vel].
  split; [apply constrain_bounds; lra |].
  split; [apply constrain_bounds; lra |].
  split; [done |]. split; [done |].
  intros m Hm. by apply list_lookup_total_alter_ne.
Qed.

Lemma applyRepulsion_clamps_witness :
  let h' := Node.applyRepulsion (nodes two_nodes) 0%nat (heap two_nodes) in
  -5 <= Node.vx (h' !!! 0%nat) <= 5 ∧ -5 <= Node.vy (h' !!! 0%nat) <= 5
  ∧ Node.x (h' !!! 0%nat) = Node.x (heap two_nodes !!! 0%nat)
  ∧ Node.y (h' !!! 0%nat) = Node.y (heap two_nodes !!! 0%nat)
  ∧ (∀ m, m ≠ 0%nat → h' !!! m = heap two_nodes !!! m).
Proof.
  apply (applyRepulsion_clamps (nodes two_nodes) 0%nat (heap two_nodes)).
  vm_compute. lia.
Defined.

Lemma repel_out_of_reach (this : ref) (me : Node.t) (acc : R * R) (oref : ref)
    (o : Node.t) :
  oref = this ∨ out_of_reach me o → Node.repel this me acc oref o = acc.
Proof.
  intros H. unfold Node.repel. destruct (decide (oref = this)); [done |].
  destruct H as [H | H]; [done |]. unfold out_of_reach, dist in H.
  destruct H as [H | H].
  - by rewrite Rltb_false by lra.
  - by rewrite (Rgtb_false _ 0.1), andb_false_r by lra.
Qed.

Lemma repulsion_out_of_reach (h : list Node.t) (others : list ref) (this : ref) :
  (∀ o, o ∈ others → o = this ∨ out_of_reach (h !!! this) (h !!! o)) →
  Node.repulsion h others this = (0, 0).
Proof.
  unfold Node.repulsion. generalize (0, 0).
  induction others as [|o others IH]; intros acc Hall; [done |].
  cbn [fold_left]. rewrite repel_out_of_reach by (apply Hall; left).
  apply IH. intros o' Ho'. apply Hall. by right.
Qed.

(** X21: a node feels no repulsion from nodes that are at least its own
    diameter away, nor from nodes within 0.1 of its centre, nodes at the
    very same position included: when every other node is out of reach
    in one of these two ways the accumulated force is (0, 0), and
    [applyRepulsion] leaves a velocity already inside [[-5, 5]] as it
    is. *)
Theorem applyRepulsion_out_of_reach (others : list ref) (this : ref)
    (h : list Node.t) :
  (∀ o, o ∈ others → o = this ∨ out_of_reach (h !!! this) (h !!! o)) →
  Node.repulsion h others this = (0, 0)
  ∧ (-5 <= Node.vx (h !!! this) <= 5 → -5 <= Node.vy (h !!! this) <= 5 →
     ∀ m, Node.applyRepulsion others this h !!! m = h !!! m).
Proof.
  intros Hall. pose proof (repulsion_out_of_reach h others this Hall) as Hzero.
  split; [exact Hzero |]. intros Hvx Hvy m.
  unfold Node.applyRepulsion. rewrite Hzero, list_lookup_total_alter.
  case_decide as Hm; [| done]. destruct Hm as [-> _].
  unfold Node.repulse. cbn [fst snd].
  rewrite !Rplus_0_r, !constrain_inside by done. reflexivity.
Qed.

(** Two nodes at the very same spot. *)
Lemma applyRepulsion_out_of_reach_witness :
  Node.repulsion [lone; lone] [0%nat; 1%nat] 0%nat = (0, 0).
Proof.
  apply (applyRepulsion_out_of_reach [0%nat; 1%nat] 0%nat [lone; lone]).
  intros o Ho. right. right. unfold dist.
  apply elem_of_cons in Ho as [-> | Ho];
    [| apply list_elem_of_singleton in Ho as ->]; cbn.
  - replace ((100 - 100) * (100 - 100) + (100 - 100) * (100 - 100)) with 0 by ring.
    rewrite sqrt_0. lra.
  - replace ((100 - 100) * (100 - 100) + (100 - 100) * (100 - 100)) with 0 by ring.
    rewrite sqrt_0. lra.
Defined.

(** X22: between two distinct nodes of equal radius repulsion is mutual:
    the force each one accumulates from the pair is the opposite of the
    other's, component by component. *)
Theorem repulsion_is_mutual (h : list Node.t) (a b : ref) :
  a ≠ b → Node.r (h !!! a) = Node.r (h !!! b) →
  (Node.repulsion h [a; b] b).1 = - (Node.repulsion h [a; b] a).1
  ∧ (Node.repulsion h [a; b] b).2 = - (Node.repulsion h [a; b] a).2.
Proof.
  intros Hne Hr. unfold Node.repulsion. cbn [fold_left].
  unfold Node.repel.
  rewrite (decide_True (P := a = a)) by done.
  rewrite (decide_True (P := b = b)) by done.
  rewrite (decide_False (P := b = a)) by done.
  rewrite (decide_False (P := a = b)) by done.
  rewrite Hr.
  replace ((Node.x (h !!! b) - Node.x (h !!! a)) * (Node.x (h !!! b) - Node.x (h !!! a))
           + (Node.y (h !!! b) - Node.y (h !!! a)) * (Node.y (h !!! b) - Node.y (h !!! a)))
    with ((Node.x (h !!! a) - Node.x (h !!! b)) * (Node.x (h !!! a) - Node.x (h !!! b))
          + (Node.y (h !!! a) - Node.y (h !!! b)) * (Node.y (h !!! a) - Node.y (h !!! b)))
    by ring.
  set (d := sqrt _).
  destruct (Rltb d (Node.r (h !!! b) * 2) && Rgtb d 0.1) eqn:Hc;
    cbn [fst snd]; [| lra].
  assert (d ≠ 0) as Hd.
  { apply andb_true_iff in Hc as [_ Hc]. unfold Rgtb in Hc.
    destruct (Rgt_dec d 0.1); [lra | done]. }
  split; field; exact Hd.
Qed.

Lemma repulsion_is_mutual_witness :
  (Node.repulsion (heap two_nodes) [0%nat; 1%nat] 1%nat).1
  = - (Node.repulsion (heap two_nodes) [0%nat; 1%nat] 0%nat).1
  ∧ (Node.repulsion (heap two_nodes) [0%nat; 1%nat] 1%nat).2
    = - (Node.repulsion (heap two_nodes) [0%nat; 1%nat] 0%nat).2.
Proof.
  apply (repulsion_is_mutual (heap two_nodes) 0%nat 1%nat); [lia | reflexivity].
Defined.

Lemma update_at_rest (n : Node.t) : at_rest n → Node.update n = n.
Proof.
  intros (Hvx & Hvy & Htx & Hty).
  apply Node_ext; try reflexivity; unfold Node.update; cbn;
    rewrite ?Hvx, ?Hvy, ?Htx, ?Hty; ring.
Qed.

Lemma repulse_at_rest (n : Node.t) : at_rest n → Node.repulse (0, 0) n = n.
Proof.
  intros (Hvx & Hvy & _).
  apply Node_ext; try reflexivity; unfold Node.repulse; cbn;
    rewrite ?Hvx, ?Hvy, Rplus_0_r; apply constrain_inside; lra.
Qed.

(** X23: a scene in equilibrium is a fixed point of the physics: when
    every node of the collection sits on its target with no velocity,
    inside the world rectangle, and (unless overlap is allowed) out of the
    reach of every other node's repulsion, a frame of [drawNodes] leaves
    every node exactly as it was. *)
Theorem drawNodes_equilibrium (s : State) :
  wf s →
  (∀ n, n ∈ nodes s →
     at_rest (heap s !!! n) ∧ inside_bounds (worldBounds s) (heap s !!! n)
     ∧ (isAllowOverlap s = true
        ∨ ∀ m, m ∈ nodes s → m = n ∨ out_of_reach (heap s !!! n) (heap s !!! m))) →
  ∀ n, n ∈ nodes s → heap (drawNodes s) !!! n = heap s !!! n.
Proof.
  intros Hwf Hall n Hin. rewrite (drawNodes_lookup s n Hwf Hin).
  destruct (Hall n Hin) as (Hrest & Hinside & Hfar).
  unfold frame_of_node.
  assert ((if isAllowOverlap s then heap s !!! n
           else Node.repulse (Node.repulsion (heap s) (nodes s) n) (heap s !!! n))
          = heap s !!! n) as ->.
  { destruct (isAllowOverlap s); [done |].
    destruct Hfar as [Hfar | Hfar]; [done |].
    rewrite (repulsion_out_of_reach (heap s) (nodes s) n Hfar).
    by apply repulse_at_rest. }
  rewrite applyBoundary_inside by exact Hinside.
  by apply update_at_rest.
Qed.

Lemma drawNodes_equilibrium_witness :
  heap (drawNodes (updateWorldBounds env0 one_node)) !!! 0%nat
  = heap (updateWorldBounds env0 one_node) !!! 0%nat.
Proof.
  apply (drawNodes_equilibrium (updateWorldBounds env0 one_node)).
  - change (wf (createNode (set_canvasY 100 (set_canvasX 100 setup)))).
    apply createNode_wf. exact setup_wf.
  - intros n Hn.
    change (nodes (updateWorldBounds env0 one_node)) with [0%nat] in Hn.
    apply list_elem_of_singleton in Hn as ->.
    change (heap (updateWorldBounds env0 one_node) !!! 0%nat)
      with (Node.new 100 100 1 false).
    change (worldBounds (updateWorldBounds env0 one_node))
      with (Bounds.mk ((0 - 0) / 1) ((800 - 0) / 1) ((0 - 0) / 1) ((600 - 0) / 1)).
    split; [by repeat split |]. split.
    + unfold inside_bounds. cbn. lra.
    + right. intros m Hm.
      change (nodes (updateWorldBounds env0 one_node)) with [0%nat] in Hm.
      apply list_elem_of_singleton in Hm as ->. by left.
  - change (nodes (updateWorldBounds env0 one_node)) with [0%nat].
    apply list_elem_of_here.
Defined.
End Physics.

(** ** Resizing, labels, hover, toasts, creation *)

Section Misc.
Local Open Scope R_scope.

(** X24: after a resize to a canvas of non-negative size, the target of
    every node of the collection lies within the new canvas rectangle
    (targets already inside are kept as they are), and no position or
    velocity has changed. *)
Theorem windowResized_clamps_targets (env : Env) (s : State) (n : ref) :
  wf s → 0 <= width env → 0 <= height env → n ∈ nodes s →
  let me := heap s !!! n in
  let me' := heap (windowResized env s) !!! n in
  0 <= Node.tx me' <= width env ∧ 0 <= Node.ty me' <= height env
  ∧ (0 <= Node.tx me <= width env → Node.tx me' = Node.tx me)
  ∧ (0 <= Node.ty me <= height env → Node.ty me' = Node.ty me)
  ∧ Node.x me' = Node.x me ∧ Node.y me' = Node.y me
  ∧ Node.vx me' = Node.vx me ∧ Node.vy me' = Node.vy me.
Proof.
  intros [Hnd Hlt] Hw Hh Hin me me'. subst me'. unfold windowResized.
  cbn [heap set_heap].
  rewrite (fold_alter_lookup
             (λ _ nd, Node.with_target (constrain (Node.tx nd) 0 (width env))
                        (constrain (Node.ty nd) 0 (height env)) nd))
    by done.
  rewrite decide_True by exact Hin. fold me.
  cbn [Node.tx Node.ty Node.x Node.y Node.vx Node.vy Node.with_target].
  split; [by apply constrain_bounds |]. split; [by apply constrain_bounds |].
  split; [apply constrain_inside |]. split; [apply constrain_inside |]. done.
Qed.

Lemma windowResized_clamps_targets_witness :
  let me := heap dragging !!! 0%nat in
  let me' := heap (windowResized (mkEnv 0 0 0 0 150 600 LEFT false 0) dragging)
             !!! 0%nat in
  0 <= Node.tx me' <= 150 ∧ 0 <= Node.ty me' <= 600
  ∧ (0 <= Node.tx me <= 150 → Node.tx me' = Node.tx me)
  ∧ (0 <= Node.ty me <= 600 → Node.ty me' = Node.ty me)
  ∧ Node.x me' = Node.x me ∧ Node.y me' = Node.y me
  ∧ Node.vx me' = Node.vx me ∧ Node.vy me' = Node.vy me.
Proof.
  apply (windowResized_clamps_targets
           (mkEnv 0 0 0 0 150 600 LEFT false 0) dragging 0%nat).
  - exact dragging_wf.
  - cbn. lra.
  - cbn. lra.
  - exact dragging_has_node.
Defined.

(** X25: the label button flips the global toggle and gives every node of
    the collection that new value as its own label visibility; pressing
    it twice gives the toggle its old value back. *)
Theorem handleLabelButton_sets_all (s : State) (n : ref) :
  wf s → n ∈ nodes s →
  isLabelsAlwaysVisible (handleLabelButton s) = negb (isLabelsAlwaysVisible s)
  ∧ Node.labelVisible (heap (handleLabelButton s) !!! n)
    = negb (isLabelsAlwaysVisible s)
  ∧ isLabelsAlwaysVisible (handleLabelButton (handleLabelButton s))
    = isLabelsAlwaysVisible s.
Proof.
  intros [Hnd Hlt] Hin. unfold handleLabelButton.
  cbn [heap set_heap isLabelsAlwaysVisible set_isLabelsAlwaysVisible nodes].
  split; [done |]. split; [| apply negb_involutive].
  rewrite (fold_alter_lookup
             (λ _, Node.with_labelVisible (negb (isLabelsAlwaysVisible s))))
    by done.
  by rewrite decide_True by exact Hin.
Qed.

Lemma handleLabelButton_sets_all_witness :
  isLabelsAlwaysVisible (handleLabelButton dragging)
  = negb (isLabelsAlwaysVisible dragging)
  ∧ Node.labelVisible (heap (handleLabelButton dragging) !!! 0%nat)
    = negb (isLabelsAlwaysVisible dragging)
  ∧ isLabelsAlwaysVisible (handleLabelButton (handleLabelButton dragging))
    = isLabelsAlwaysVisible dragging.
Proof.
  apply (handleLabelButton_sets_all dragging 0%nat).
  - exact dragging_wf.
  - exact dragging_has_node.
Defined.
End Misc.

Lemma find_first {A} (f : A → bool) (l : list A) (x : A) :
  List.find f l = Some x ↔
  ∃ i, l !! i = Some x ∧ f x = true
       ∧ ∀ j y, j < i → l !! j = Some y → f y = false.
Proof.
  induction l as [|a l IH]; cbn.
  - split; [done | by intros (i & Hi & _)].
  - destruct (f a) eqn:Ha.
    + split.
      * intros [= ->]. exists 0. split; [done |]. split; [done |]. lia.
      * intros (i & Hi & Hx & Hbefore). destruct i as [|i]; [by injection Hi as -> |].
        specialize (Hbefore 0 a). cbn in Hbefore. rewrite Hbefore in Ha; [done | lia | done].
    + rewrite IH. split.
      * intros (i & Hi & Hx & Hbefore). exists (S i). split; [done |].
        split; [done |]. intros [|j] y Hj Hy; cbn in Hy; [congruence |].
        apply (Hbefore j); [lia | done].
      * intros (i & Hi & Hx & Hbefore). destruct i as [|i]; cbn in Hi.
        { congruence. }
        exists i. split; [done |]. split; [done |].
        intros j y Hj Hy. apply (Hbefore (S j)); [lia | done].
Qed.

(** X26: [updateHoveredNode] picks the first node of the collection, in
    collection order, that the pointer is over: the hovered node is under
    the pointer and no node before it in the array is; and nothing is
    hovered exactly when the pointer is over no node of the collection. *)
Theorem updateHoveredNode_picks_first (s : State) :
  let over n := Node.isHovered (canvasX s) (canvasY s) (heap s !!! n) in
  (∀ h, hoveredNode (updateHoveredNode s) = Some h ↔
     ∃ i, nodes s !! i = Some h ∧ over h = true
          ∧ ∀ j m, j < i → nodes s !! j = Some m → over m = false)
  ∧ (hoveredNode (updateHoveredNode s) = None ↔
     ∀ m, m ∈ nodes s → over m = false).
Proof.
  intros over. split.
  - intros h. apply (find_first over).
  - cbn [hoveredNode updateHoveredNode set_hoveredNode]. split.
    + intros Hnone m Hm. apply (find_none _ _ Hnone). by apply list_elem_of_In.
    + intros Hall. destruct (List.find _ (nodes s)) as [h|] eqn:Hfind; [| done].
      apply find_some in Hfind as [Hin Hover].
      apply list_elem_of_In in Hin. specialize (Hall h Hin).
      unfold over in Hall. congruence.
Qed.

Lemma heap_createNode (s : State) :
  heap (createNode s)
  = heap s ++ [Node.new (canvasX s) (canvasY s)
                 (Z.of_nat (length (nodes s)) + 1) (isLabelsAlwaysVisible s)]
  ∧ edges (createNode s) = edges s.
Proof. unfold createNode, saveState. cbn zeta. by destruct (bool_decide _). Qed.

(** X27: creating a node allocates a new instance, not yet in the
    collection, and appends it: it sits at the pointer's world position
    with no velocity, its own position as target and id N + 1 for a
    collection of N nodes; the nodes already there and the edges are
    untouched; and if the ids were 1..N in collection order before, they
    are 1..N+1 after. *)
Theorem createNode_appends (s : State) :
  wf s →
  let n : ref := length (heap s) in
  nodes (createNode s) = nodes s ++ [n] ∧ (n ∉ nodes s)
  ∧ heap (createNode s) !!! n
    = Node.new (canvasX s) (canvasY s) (Z.of_nat (length (nodes s)) + 1)
               (isLabelsAlwaysVisible s)
  ∧ (∀ m : ref, m ∈ nodes s → heap (createNode s) !!! m = heap s !!! m)
  ∧ edges (createNode s) = edges s
  ∧ ((λ m : ref, Node.id (heap s !!! m)) <$> nodes s
     = seqZ 1 (Z.of_nat (length (nodes s))) →
     (λ m : ref, Node.id (heap (createNode s) !!! m)) <$> nodes (createNode s)
     = seqZ 1 (Z.of_nat (length (nodes (createNode s))))).
Proof.
  intros [Hnd Hlt] n.
  destruct (createNode_frame s) as (Hn & _).
  destruct (heap_createNode s) as (Hh & He). fold n in Hn.
  assert (heap (createNode s) !!! n
          = Node.new (canvasX s) (canvasY s) (Z.of_nat (length (nodes s)) + 1)
                     (isLabelsAlwaysVisible s)) as Hnew.
  { rewrite Hh, lookup_total_app_r by (subst n; lia).
    subst n. by rewrite Nat.sub_diag. }
  assert (∀ m : ref, m ∈ nodes s → heap (createNode s) !!! m = heap s !!! m)
    as Hold.
  { intros m Hm. rewrite Hh. apply lookup_total_app_l. by apply Hlt. }
  split; [exact Hn |]. split; [intros Hin; specialize (Hlt n Hin); subst n; lia |].
  split; [exact Hnew |]. split; [exact Hold |]. split; [exact He |].
  intros Hdense. rewrite Hn, fmap_app, length_app. cbn [fmap list_fmap length].
  rewrite Hnew. cbn [Node.id Node.new].
  rewrite Nat.add_1_r, seqZ_S. f_equal; [| f_equal; lia].
  rewrite <- Hdense. apply list_fmap_ext. intros i m Hi.
  f_equal. apply Hold. by eapply list_elem_of_lookup_2.
Qed.

Lemma createNode_appends_witness :
  let n : ref := length (heap one_node) in
  nodes (createNode one_node) = nodes one_node ++ [n] ∧ (n ∉ nodes one_node)
  ∧ heap (createNode one_node) !!! n
    = Node.new (canvasX one_node) (canvasY one_node)
               (Z.of_nat (length (nodes one_node)) + 1)
               (isLabelsAlwaysVisible one_node)
  ∧ (∀ m : ref, m ∈ nodes one_node →
       heap (createNode one_node) !!! m = heap one_node !!! m)
  ∧ edges (createNode one_node) = edges one_node
  ∧ ((λ m : ref, Node.id (heap one_node !!! m)) <$> nodes one_node
     = seqZ 1 (Z.of_nat (length (nodes one_node))) →
     (λ m : ref, Node.id (heap (createNode one_node) !!! m))
       <$> nodes (createNode one_node)
     = seqZ 1 (Z.of_nat (length (nodes (createNode one_node))))).
Proof.
  apply (createNode_appends one_node).
  change (wf (createNode (set_canvasY 100 (set_canvasX 100 setup)))).
  apply createNode_wf. exact setup_wf.
Defined.

Section ToastFacts.
Local Open Scope R_scope.

(** X28: [drawToasts] keeps exactly the toasts that have not outlived their
    duration, adding none; so a toast made by [createToast] at time t0 is
    still there after a frame drawn at time t1 if and only if
    t1 - t0 <= 3000. *)
Theorem toast_lifetime (m : Message) (env env' : Env) (s : State) :
  (∀ t, t ∈ toasts (drawToasts env' s) ↔
        t ∈ toasts s ∧ millis env' - createdAt t <= duration t)
  ∧ (mkToast m (millis env) 3000 ∈ toasts (drawToasts env' (createToast m env s))
     ↔ millis env' - millis env <= 3000).
Proof.
  assert (∀ s0 t, t ∈ toasts (drawToasts env' s0) ↔
            t ∈ toasts s0 ∧ millis env' - createdAt t <= duration t) as Hkeep.
  { intros s0 t. unfold drawToasts. cbn [toasts set_toasts].
    rewrite !list_elem_of_In, filter_In, negb_true_iff. unfold Rgtb.
    destruct (Rgt_dec (millis env' - createdAt t) (duration t));
      split; intros [? ?]; split; (done || lra). }
  split; [apply Hkeep |]. rewrite Hkeep. cbn. split; [tauto |].
  intros H. split; [| exact H].
  apply elem_of_app. right. apply list_elem_of_singleton. reflexivity.
Qed.
End ToastFacts.

(** ** Hotkeys *)

Lemma KEY_NAME_MAP_entries (c : nat) (name : string) :
  KEY_NAME_MAP !! c = Some name ↔ (c, name) ∈ KEY_NAME_entries.
Proof.
  unfold KEY_NAME_MAP. symmetry. apply elem_of_list_to_map.
  apply (bool_decide_unpack _). vm_compute. exact I.
Qed.

Lemma KEY_CODE_MAP_entries (c : nat) (name : string) :
  KEY_CODE_MAP !! name = Some c ↔ (c, name) ∈ KEY_NAME_entries.
Proof.
  assert (KEY_CODE_MAP
          = list_to_map (map (λ e : nat * string, (e.2, e.1)) KEY_NAME_entries))
    as -> by (vm_compute; reflexivity).
  rewrite <- elem_of_list_to_map
    by (apply (bool_decide_unpack _); vm_compute; exact I).
  rewrite list_elem_of_fmap. split.
  - intros ([c' name'] & [= -> ->] & Hin). exact Hin.
  - intros Hin. by exists (c, name).
Qed.

(** The loop that fills [KEY_CODE_MAP] inverts [KEY_NAME_MAP]: a name
    maps to a code exactly when that code maps to that name, so no two
    codes share a name and every named key can be found back by its
    name. *)
Lemma KEY_CODE_MAP_inverts (c : nat) (name : string) :
  KEY_CODE_MAP !! name = Some c ↔ KEY_NAME_MAP !! c = Some name.
Proof. by rewrite KEY_CODE_MAP_entries, KEY_NAME_MAP_entries. Qed.

Lemma hotkeys_entries :
  hotkeys
  = list_to_map
      [("escape", ActConnectModeOff); ("c", ActConnectModeOn); ("l", ActLabels);
       ("o", ActOverlap); ("pageup", ActZoomIn); ("pagedown", ActZoomOut);
       ("home", ActHome); ("ctrl+z", ActUndo); ("ctrl+y", ActRedo)].
Proof. vm_compute. reflexivity. Qed.

(** X29: with the shift key or the alt key held, no hotkey fires: whatever
    key is pressed, [keyPressed] leaves the state as it is. *)
Theorem keyPressed_modifier_guard (mods : Modifiers) (k : string) (c : nat)
    (env : Env) (s : State) :
  shiftDown mods = true ∨ altDown mods = true →
  keyPressed mods k c env s = s.
Proof.
  intros Hmod. unfold keyPressed. cbn zeta.
  assert (hotkeys !! getKeyCombo mods k c = None) as ->; [| done].
  rewrite hotkeys_entries. apply not_elem_of_list_to_map_1.
  unfold getKeyCombo. cbn zeta.
  generalize (match KEY_NAME_MAP !! c with
              | Some name => Some name
              | None => if (String.length k =? 1)%nat
                        then Some (toLowerCase k) else None
              end).
  intros primaryKey Hin.
  destruct mods as [ctrl shift alt]. cbn in Hmod.
  destruct ctrl, shift, alt, primaryKey as [p|];
    try (by destruct Hmod); cbn in Hin;
    repeat (apply elem_of_cons in Hin as [Hin | Hin]; [discriminate Hin |]);
    by apply elem_of_nil in Hin.
Qed.

Lemma keyPressed_modifier_guard_witness :
  keyPressed (mkModifiers false true false) "C" 67 env0 editing = editing.
Proof.
  apply (keyPressed_modifier_guard (mkModifiers false true false) "C" 67
           env0 editing).
  left. reflexivity.
Defined.

Lemma lower_ascii_idemp (a : Ascii.ascii) :
  lower_ascii (lower_ascii a) = lower_ascii a.
Proof. destruct a as [[] [] [] [] [] [] [] []]; reflexivity. Qed.

(** X30: the letter case of the key does not matter (a one-character key
    and its lower-case form dispatch alike), and for a key code that has a
    name the key text is ignored altogether. *)
Theorem keyPressed_ignores_case (mods : Modifiers) (c : nat) (env : Env)
    (s : State) :
  (∀ a, keyPressed mods (String a "") c env s
        = keyPressed mods (String (lower_ascii a) "") c env s)
  ∧ (is_Some (KEY_NAME_MAP !! c) →
     ∀ k k', keyPressed mods k c env s = keyPressed mods k' c env s).
Proof.
  split.
  - intros a. unfold keyPressed, getKeyCombo. cbn zeta.
    destruct (KEY_NAME_MAP !! c); [done |].
    cbn [String.length Nat.eqb toLowerCase]. by rewrite lower_ascii_idemp.
  - intros [name Hname] k k'. unfold keyPressed, getKeyCombo. cbn zeta.
    by rewrite Hname.
Qed.

Lemma keyPressed_ignores_case_witness :
  keyPressed (mkModifiers false false false) "C" 67 env0 editing
  = keyPressed (mkModifiers false false false) "c" 67 env0 editing
  ∧ keyPressed (mkModifiers false false false) "Escape" 27 env0 connecting
    = keyPressed (mkModifiers false false false) "" 27 env0 connecting.
Proof.
  destruct (keyPressed_ignores_case (mkModifiers false false false) 67
              env0 editing) as [Hcase _].
  destruct (keyPressed_ignores_case (mkModifiers false false false) 27
              env0 connecting) as [_ Hnamed].
  split.
  - apply Hcase.
  - apply Hnamed. exists "escape". vm_compute. reflexivity.
Defined.
